(** * Codes/utils.py: data loading, image-quality metrics and checkpoint
      wrappers of the frame-prediction pipeline.

    The development follows the layout of the Python module:
    - [Py]      : the fragment of Python the module relies on (exceptions,
                  list indexing with negative indices, [range], [dict] with
                  insertion order, POSIX [os.path.join], [str.split]);
    - [Np]      : [numpy] arrays of rank 3 and [np.concatenate(axis=2)],
                  [RandomState.randint] as a finite uniform distribution;
    - [Extern]  : what the module takes from outside ([cv2.imread],
                  [cv2.resize], [glob.glob]);
    - [Loader]  : [np_load_frame] and the class [DataLoader];
    - [Metrics] : [log10], [psnr_error], [sharp_diff_error] over dense rank-4
                  tensors of real numbers;
    - [Ckpt]    : [save], as the trace of calls it issues.

    Float32 arithmetic is idealised: pixel values of loaded frames are exact
    rationals, tensor entries of the metrics are real numbers. *)

From Stdlib Require Import ZArith QArith List String Ascii Bool Lia Lqa.
From Stdlib Require Import Sorting.Mergesort Sorting.Sorted Sorting.Permutation.
From Stdlib Require Import Reals Lra.
Import ListNotations.

Set Implicit Arguments.

(* ===================================================================== *)
(** * Python *)
(* ===================================================================== *)

Module Py.

(** The exceptions the module can raise, directly or through a library. *)
Inductive exn : Type :=
| AssertionError
| KeyError
| IndexError
| ValueError
| ZeroDivisionError
| CvError            (* cv2.error *)
| OSError
| InvalidArgumentError.   (* tf.errors.InvalidArgumentError *)

Inductive result (A : Type) : Type :=
| Ok (a : A)
| Raise (e : exn).

Arguments Ok {A} a.
Arguments Raise {A} e.

Definition bind {A B} (m : result A) (k : A -> result B) : result B :=
  match m with
  | Ok a => k a
  | Raise e => Raise e
  end.

Module Notations.
Notation "x <- m ;; k" := (bind m (fun x => k))
    (at level 61, m at next level, right associativity).
End Notations.
Import Notations.

(** [for x in xs: acc.append(f(x))], stopping at the first exception. *)
Fixpoint for_append {A B} (f : A -> result B) (xs : list A) : result (list B) :=
  match xs with
  | [] => Ok []
  | x :: xs' =>
      y <- f x ;;
      ys <- for_append f xs' ;;
      Ok (y :: ys)
  end.

(** [range(start, stop)]: empty when [stop <= start]. *)
Definition range (start stop : Z) : list Z :=
  map (fun k => (start + Z.of_nat k)%Z) (seq 0 (Z.to_nat (stop - start))).

(** [l[i]] on a list: a negative index counts from the end. *)
Definition norm_index (n i : Z) : Z :=
  if (i <? 0)%Z then (i + n)%Z else i.

Definition list_getitem {A} (l : list A) (i : Z) : result A :=
  let n := Z.of_nat (List.length l) in
  let j := norm_index n i in
  if ((0 <=? j) && (j <? n))%Z
  then match nth_error l (Z.to_nat j) with
       | Some x => Ok x
       | None => Raise IndexError
       end
  else Raise IndexError.

(** [a % b] on ints. *)
Definition mod_ (a b : Z) : result Z :=
  if (b =? 0)%Z then Raise ZeroDivisionError else Ok (a mod b)%Z.

(** ** [dict] with string keys: insertion order is kept, assignment to an
       existing key replaces its value in place. *)
Section Dict.
Variable V : Type.

Definition dict := list (string * V).

Fixpoint dict_get (d : dict) (k : string) : option V :=
    match d with
    | [] => None
    | (k', v) :: d' => if String.eqb k' k then Some v else dict_get d' k
    end.

Fixpoint dict_set (d : dict) (k : string) (v : V) : dict :=
    match d with
    | [] => [(k, v)]
    | (k', v') :: d' =>
        if String.eqb k' k then (k, v) :: d' else (k', v') :: dict_set d' k v
    end.

Definition dict_getitem (d : dict) (k : string) : result V :=
    match dict_get d k with
    | Some v => Ok v
    | None => Raise KeyError
    end.

Definition dict_keys (d : dict) : list string := map fst d.
Definition dict_values (d : dict) : list V := map snd d.
End Dict.

(** ** Strings and paths *)

Definition slash : ascii := "/"%char.

(** [s.split('/')]: always at least one piece. *)
Fixpoint split_slash (s : string) : list string :=
  match s with
  | EmptyString => [EmptyString]
  | String c s' =>
      if Ascii.eqb c slash then EmptyString :: split_slash s'
      else match split_slash s' with
           | [] => [String c EmptyString]
           | p :: ps => String c p :: ps
           end
  end.

Fixpoint ends_with_slash (s : string) : bool :=
  match s with
  | EmptyString => false
  | String c EmptyString => Ascii.eqb c slash
  | String _ s' => ends_with_slash s'
  end.

Definition starts_with_slash (s : string) : bool :=
  match s with
  | String c _ => Ascii.eqb c slash
  | EmptyString => false
  end.

(** [os.path.join(a, b)] of [posixpath]. *)
Definition os_path_join (a b : string) : string :=
  if starts_with_slash b then b
  else if (String.eqb a EmptyString || ends_with_slash a)%bool then (a ++ b)%string
  else (a ++ "/" ++ b)%string.

(** [sorted(l)] and [l.sort()] on strings: ascending in the lexicographic
    order on character codes. *)
Module StringOrder <: Orders.TotalLeBool.
Definition t := string.
Definition leb := String.leb.
Definition leb_total : forall x y, leb x y = true \/ leb y x = true :=
  String.leb_total.
End StringOrder.

Module StringSort := Mergesort.Sort StringOrder.

Definition sorted (l : list string) : list string := StringSort.sort l.

End Py.

Import Py Py.Notations.

(* ===================================================================== *)
(** * numpy *)
(* ===================================================================== *)

Module Np.

(** An array of rank 3 ([height][width][channel]) as nested lists, all
    rows of one width and all pixels of one depth. *)
Definition ndarray3 (A : Type) := list (list (list A)).

Definition map3 {A B} (f : A -> B) (a : ndarray3 A) : ndarray3 B :=
  map (map (map f)) a.

(** [has_shape h w c a]: [a.shape == (h, w, c)]. *)
Definition has_shape {A} (h w c : nat) (a : ndarray3 A) : Prop :=
  List.length a = h /\
  Forall (fun row => List.length row = w /\
                     Forall (fun px => List.length px = c) row) a.

Definition all_channels {A} (c : nat) (a : ndarray3 A) : Prop :=
  Forall (Forall (fun px => List.length px = c)) a.

Definition all_elements {A} (P : A -> Prop) (a : ndarray3 A) : Prop :=
  Forall (Forall (Forall P)) a.

(** The check of [np.concatenate] on the axes other than the one joined. *)
Definition same_hw {A} (a b : ndarray3 A) : bool :=
  (List.length a =? List.length b)%nat &&
  forallb (fun rr => (List.length (fst rr) =? List.length (snd rr))%nat)
          (combine a b).

(** Two arrays joined along axis 2. *)
Definition cat2 {A} (a b : ndarray3 A) : ndarray3 A :=
  map (fun rr => map (fun pp => fst pp ++ snd pp) (combine (fst rr) (snd rr)))
      (combine a b).

(** [np.concatenate(arrs, axis=2)]: [ValueError] on an empty sequence and
    on arrays whose heights or widths differ. *)
Definition concatenate_axis2 {A} (arrs : list (ndarray3 A)) : result (ndarray3 A) :=
  match arrs with
  | [] => Raise ValueError
  | a :: rest =>
      if forallb (same_hw a) rest then Ok (fold_left cat2 rest a)
      else Raise ValueError
  end.

(** Joining along the channel axis as the glossary words it: at row [i]
    and column [j], the channels of the arrays one after the other. *)
Definition has_hw {A} (h w : nat) (a : ndarray3 A) : Prop :=
  List.length a = h /\ Forall (fun row => List.length row = w) a.

Definition pixel_at {A} (a : ndarray3 A) (i j : nat) : list A :=
  nth j (nth i a []) [].

Definition tabulate {A} (h w : nat) (px : nat -> nat -> list A) : ndarray3 A :=
  map (fun i => map (fun j => px i j) (seq 0 w)) (seq 0 h).

Definition channel_concat {A} (h w : nat) (fs : list (ndarray3 A)) : ndarray3 A :=
  tabulate h w (fun i j => List.concat (map (fun f => pixel_at f i j) fs)).

(** ** [RandomState.randint(low, high)]

    A draw from the discrete uniform distribution on the half-open
    interval [low, high); [ValueError] when [low >= high].  A finite uniform
    distribution is given by the list of its equally likely outcomes. *)
Definition randint (low high : Z) : result (list Z) :=
  if (low <? high)%Z then Ok (range low high) else Raise ValueError.

(** Probability of [x] under the uniform distribution on the outcomes [d]. *)
Definition prob (d : list Z) (x : Z) : Q :=
  Z.of_nat (count_occ Z.eq_dec d x) # Pos.of_nat (List.length d).

End Np.

Import Np.

(* ===================================================================== *)
(** * What the module takes from outside *)
(* ===================================================================== *)

(** Decoded 8-bit images and float images. *)
Definition image8 := ndarray3 Z.
Definition imagef := ndarray3 Q.

Class Extern : Type := {
  (** [cv2.imread(filename)]: the decoded BGR image, [None] when the file
      cannot be read. *)
  imread : string -> option image8;
  (** [cv2.resize(src, (width, height))]. *)
  resize : image8 -> nat * nat -> result image8;
  (** [glob.glob(pattern)]: the matching paths, in arbitrary order. *)
  glob : string -> list string
}.

Definition is_uint8 (img : image8) : Prop :=
  all_elements (fun v => (0 <= v <= 255)%Z) img.

(** What OpenCV promises: a colour image has three channels; resizing gives
    the requested size, keeps the number of channels and the 8-bit range. *)
Class ExternSpec (E : Extern) : Prop := {
  imread_color : forall f img, imread f = Some img -> all_channels 3 img;
  resize_shape : forall img w h c r,
      all_channels c img -> resize img (w, h) = Ok r -> has_shape h w c r;
  resize_uint8 : forall img dsize r,
      is_uint8 img -> resize img dsize = Ok r -> is_uint8 r
}.

(* ===================================================================== *)
(** * The loader *)
(* ===================================================================== *)

Module Loader.

Section WithExtern.
Context {E : Extern}.

(** [np_load_frame]: [cv2.resize] rejects the [None] of an unreadable
    file; [astype(float32)] and the affine map are exact on rationals. *)
Definition np_load_frame (filename : string) (resize_height resize_width : nat)
  : result imagef :=
  match imread filename with
  | None => Raise CvError
  | Some image_decoded =>
      image_resized <- resize image_decoded (resize_width, resize_height) ;;
      let image_resized := map3 inject_Z image_resized in
      Ok (map3 (fun v => v / (255 # 2) - 1)%Q image_resized)
  end.

(** The per-video dictionary with keys ['path'], ['frame'], ['length']. *)
Record video_info : Type := {
  v_path : string;
  v_frame : list string;
  v_length : Z
}.

Record DataLoader : Type := {
  dir : string;
  videos : dict video_info;
  _resize_height : nat;
  _resize_width : nat
}.

Definition with_videos (self : DataLoader) (vs : dict video_info) : DataLoader :=
  {| dir := dir self; videos := vs;
     _resize_height := _resize_height self;
     _resize_width := _resize_width self |}.

(** One iteration of the loop of [setup]. *)
Definition setup_video (self : DataLoader) (video : string) : DataLoader :=
  let video_name := last (split_slash video) EmptyString in
  let frame := sorted (glob (os_path_join video "*.jpg")) in
  with_videos self
    (dict_set (videos self) video_name
       {| v_path := video; v_frame := frame;
          v_length := Z.of_nat (List.length frame) |}).

Definition setup (self : DataLoader) : DataLoader :=
  let videos := glob (os_path_join (dir self) "*") in
  fold_left setup_video (sorted videos) self.

Definition __init__ (video_folder : string) (resize_height resize_width : nat)
  : DataLoader :=
  setup {| dir := video_folder; videos := [];
           _resize_height := resize_height;
           _resize_width := resize_width |}.

(** Methods return their result together with the loader they leave. *)
Definition __getitem__ (self : DataLoader) (video_name : string)
  : result video_info * DataLoader :=
  if existsb (String.eqb video_name) (dict_keys (videos self))
  then (dict_getitem (videos self) video_name, self)
  else (Raise AssertionError, self).

Definition get_video_clips (self : DataLoader) (video : string) (start end_ : Z)
  : result imagef * DataLoader :=
  (batch <- for_append
              (fun i =>
                 info <- dict_getitem (videos self) video ;;
                 filename <- list_getitem (v_frame info) i ;;
                 np_load_frame filename (_resize_height self) (_resize_width self))
              (range start end_) ;;
   concatenate_axis2 batch,
   self).

(** The file names of the frames of a video at the indices
    [start], [start + 1], ..., [stop - 1], in that order. *)
Definition frames_between (info : video_info) (start stop : Z) : list string :=
  firstn (Z.to_nat (stop - start)) (skipn (Z.to_nat start) (v_frame info)).

(** ** [__call__]: what the generator closes over, and the pipeline
       parameters handed to [tf.data]. *)
Record dataset : Type := {
  video_info_list : list video_info;
  clip_length : Z;
  resize_height : nat;
  resize_width : nat;
  output_shapes : nat * nat * Z;
  batch_size : Z
}.

Definition __call__ (self : DataLoader) (batch_size time_steps num_pred : Z)
  : dataset * DataLoader :=
  let clip_length := (time_steps + num_pred)%Z in
  ({| video_info_list := dict_values (videos self);
      clip_length := clip_length;
      resize_height := _resize_height self;
      resize_width := _resize_width self;
      output_shapes := (_resize_height self, _resize_width self, clip_length * 3)%Z;
      batch_size := batch_size |},
   self).

(** The distribution of [start] in the generator, for a video of [length]
    frames. *)
Definition video_clip_start (length clip_length : Z) : result (list Z) :=
  randint 0 (length - clip_length).

(** The clip built once [start] is drawn. *)
Definition video_clip_at (ds : dataset) (info : video_info) (start : Z)
  : result imagef :=
  video_clip <- for_append
                  (fun frame_id =>
                     filename <- list_getitem (v_frame info) frame_id ;;
                     np_load_frame filename (resize_height ds) (resize_width ds))
                  (range start (start + clip_length ds)) ;;
  concatenate_axis2 video_clip.

(** One turn of the [while True] loop of [video_clip_generator], from the
    generator state [v_id]: an exception raised before the draw, or the
    equally likely outcomes of the turn, each the new state and the clip
    yielded, or the exception raised while loading. *)
Definition video_clip_generator (ds : dataset) (v_id : Z)
  : result (list (result (Z * imagef))) :=
  let num_videos := Z.of_nat (List.length (video_info_list ds)) in
  v_id <- mod_ (v_id + 1) num_videos ;;
  video_info <- list_getitem (video_info_list ds) v_id ;;
  starts <- video_clip_start (v_length video_info) (clip_length ds) ;;
  Ok (map (fun start =>
             video_clip <- video_clip_at ds video_info start ;;
             Ok (v_id, video_clip))
          starts).

(** The generator starts from [v_id = -1]. *)
Definition v_id_init : Z := (-1)%Z.

(** A run of the generator: the clips yielded so far, each with the state
    it was yielded in, oldest first, and the state the generator is left in.
    A turn that raises ends the generator and is not part of a run. *)
Inductive yields_run (ds : dataset) : list (Z * imagef) -> Z -> Prop :=
| run_start : yields_run ds [] v_id_init
| run_turn (clips : list (Z * imagef)) (v_id v_id' : Z)
           (outcomes : list (result (Z * imagef))) (clip : imagef) :
    yields_run ds clips v_id ->
    video_clip_generator ds v_id = Ok outcomes ->
    In (Ok (v_id', clip)) outcomes ->
    yields_run ds (clips ++ [(v_id', clip)]) v_id'.

(** The entry [setup] stores for the directory [video]. *)
Definition video_name_of (video : string) : string :=
  last (split_slash video) EmptyString.

Definition video_entry (video : string) : string * video_info :=
  let frame := sorted (glob (os_path_join video "*.jpg")) in
  (video_name_of video,
   {| v_path := video; v_frame := frame;
      v_length := Z.of_nat (List.length frame) |}).

(** Keys are distinct, each key is the last component of the path stored
    under it, and that path is one of [found]. *)
Definition keyed_by_name (found : list string) (d : dict video_info) : Prop :=
  NoDup (dict_keys d) /\
  Forall (fun entry =>
            fst entry = video_name_of (v_path (snd entry)) /\
            In (v_path (snd entry)) found) d.

(** ** What the glossary promises *)

(** [clip] is made of [clip_length] consecutive frames of the video at
    position [v_id'] of the loader, from some [start] on, joined along the
    channel axis. *)
Definition consecutive_clip (self : DataLoader) (clip_length v_id' : Z)
           (clip : imagef) : Prop :=
  exists (info : video_info) (start : Z) (loaded : list imagef),
    nth_error (dict_values (videos self)) (Z.to_nat v_id') = Some info /\
    (0 <= start)%Z /\ (0 < clip_length)%Z /\
    (start + clip_length <= Z.of_nat (List.length (v_frame info)))%Z /\
    Forall2 (fun filename arr =>
               np_load_frame filename (_resize_height self) (_resize_width self)
               = Ok arr)
            (frames_between info start (start + clip_length)) loaded /\
    clip = channel_concat (_resize_height self) (_resize_width self) loaded /\
    has_shape (_resize_height self) (_resize_width self)
              (Z.to_nat (clip_length * 3)) clip.

Definition string_le (a b : string) : Prop := String.leb a b = true.

(** Every entry of [self.videos] counts its frames, lists them in
    ascending order, and lists exactly the [*.jpg] paths of its directory. *)
Definition video_info_ok (info : video_info) : Prop :=
  v_length info = Z.of_nat (List.length (v_frame info)) /\
  StronglySorted string_le (v_frame info) /\
  Permutation (v_frame info) (glob (os_path_join (v_path info) "*.jpg")).

Definition videos_invariant (self : DataLoader) : Prop :=
  Forall (fun entry => video_info_ok (snd entry)) (videos self).

End WithExtern.

End Loader.

(* ===================================================================== *)
(** * The metrics *)
(* ===================================================================== *)

Module Metrics.

Local Open Scope R_scope.

(** Dense tensors: a shape and the entry at each index.  Entries outside
    the shape are never read by the operations below. *)
Record tensor1 : Type := { shape1 : nat; at1 : nat -> R }.
Record tensor2 : Type := { shape2 : nat * nat; at2 : nat -> nat -> R }.
Record tensor3 : Type := { shape3 : nat * nat * nat; at3 : nat -> nat -> nat -> R }.
Record tensor4 : Type := {
  shape4 : nat * nat * nat * nat;
  at4 : nat -> nat -> nat -> nat -> R
}.

(** [sum_upto n f] is [f 0 + ... + f (n-1)]. *)
Fixpoint sum_upto (n : nat) (f : nat -> R) : R :=
  match n with
  | O => 0
  | S k => sum_upto k f + f k
  end.

(** [tf.shape] yields [int32]; products of its entries wrap around. *)
Definition int32 (z : Z) : Z := ((z + 2 ^ 31) mod 2 ^ 32 - 2 ^ 31)%Z.

Definition int32_mul (a b : Z) : Z := int32 (a * b).

(** [tf.to_float(shape[1] * shape[2] * shape[3])]. *)
Definition num_pixels_of (t : tensor4) : R :=
  let '(_, h, w, c) := shape4 t in
  IZR (int32_mul (int32_mul (Z.of_nat h) (Z.of_nat w)) (Z.of_nat c)).

(** ** Element-wise operations *)

Definition map1 (f : R -> R) (t : tensor1) : tensor1 :=
  {| shape1 := shape1 t; at1 := fun b => f (at1 t b) |}.

Definition map2 (f : R -> R) (t : tensor2) : tensor2 :=
  {| shape2 := shape2 t; at2 := fun q k => f (at2 t q k) |}.

Definition map4 (f : R -> R) (t : tensor4) : tensor4 :=
  {| shape4 := shape4 t; at4 := fun b i j k => f (at4 t b i j k) |}.

(** Broadcasting of one dimension: equal sizes, or one of them is 1. *)
Definition bdim (a b : nat) : option nat :=
  if (a =? b)%nat then Some a
  else if (a =? 1)%nat then Some b
  else if (b =? 1)%nat then Some a
  else None.

Definition bidx (d i : nat) : nat := if (d =? 1)%nat then O else i.

(** A binary element-wise operation on rank-4 tensors. *)
Definition zip4 (op : R -> R -> R) (a b : tensor4) : result tensor4 :=
  let '(a0, a1, a2, a3) := shape4 a in
  let '(b0, b1, b2, b3) := shape4 b in
  match bdim a0 b0, bdim a1 b1, bdim a2 b2, bdim a3 b3 with
  | Some d0, Some d1, Some d2, Some d3 =>
      Ok {| shape4 := (d0, d1, d2, d3);
            at4 := fun n i j k =>
                     op (at4 a (bidx a0 n) (bidx a1 i) (bidx a2 j) (bidx a3 k))
                        (at4 b (bidx b0 n) (bidx b1 i) (bidx b2 j) (bidx b3 k)) |}
  | _, _, _, _ => Raise InvalidArgumentError
  end.

(** ** Reductions *)

(** [tf.reduce_sum(t, [1, 2, 3])]. *)
Definition reduce_sum_123 (t : tensor4) : tensor1 :=
  let '(b, h, w, c) := shape4 t in
  {| shape1 := b;
     at1 := fun n =>
              sum_upto h (fun i => sum_upto w (fun j => sum_upto c (fun k =>
                at4 t n i j k))) |}.

(** [tf.reduce_mean] of a rank-1 tensor. *)
Definition reduce_mean (t : tensor1) : R :=
  sum_upto (shape1 t) (at1 t) / INR (shape1 t).

(** ** [log10] *)
Definition log10 (t : tensor1) : tensor1 :=
  let numerator := map1 ln t in
  let denominator := ln 10 in
  map1 (fun x => x / denominator) numerator.

(** ** [psnr_error] *)
Definition psnr_error (gen_frames gt_frames : tensor4) : result R :=
  let num_pixels := num_pixels_of gen_frames in
  let gt_frames := map4 (fun x => (x + 1) / 2) gt_frames in
  let gen_frames := map4 (fun x => (x + 1) / 2) gen_frames in
  diff <- zip4 Rminus gt_frames gen_frames ;;
  let square_diff := map4 Rsqr diff in
  let batch_errors :=
    map1 (fun x => 10 * x)
      (log10 (map1 (fun s => 1 / ((1 / num_pixels) * s))
                   (reduce_sum_123 square_diff))) in
  Ok (reduce_mean batch_errors).

(** ** Convolution *)

(** The entry of [input] read at row [y - py], column [x - px], zero in
    the padding. *)
Definition padded (input : tensor4) (n y py x px q : nat) : R :=
  let '(_, h, w, _) := shape4 input in
  if ((py <=? y) && (y - py <? h) && (px <=? x) && (x - px <? w))%nat
  then at4 input n (y - py) (x - px) q
  else 0.

(** [tf.nn.conv2d(input, filter, [1, 1, 1, 1], padding='SAME')]: a
    cross-correlation; of the [fh - 1] rows of padding, the lower half goes
    on top and the rest below, and likewise for columns. *)
Definition conv2d_same (input filter : tensor4) : result tensor4 :=
  let '(b, h, w, cin) := shape4 input in
  let '(fh, fw, fcin, cout) := shape4 filter in
  if (cin =? fcin)%nat then
    let pad_top := ((fh - 1) / 2)%nat in
    let pad_left := ((fw - 1) / 2)%nat in
    Ok {| shape4 := (b, h, w, cout);
          at4 := fun n i j k =>
            sum_upto fh (fun di => sum_upto fw (fun dj => sum_upto cin (fun q =>
              padded input n (i + di) pad_top (j + dj) pad_left q
              * at4 filter di dj q k))) |}
  else Raise InvalidArgumentError.

(** [np.identity(channels)]. *)
Definition identity (n : nat) : tensor2 :=
  {| shape2 := (n, n); at2 := fun q k => if (q =? k)%nat then 1 else 0 |}.

Definition zeros2 : tensor2 := {| shape2 := (O, O); at2 := fun _ _ => 0 |}.
Definition zeros3 : tensor3 := {| shape3 := (O, O, O); at3 := fun _ _ _ => 0 |}.

(** [tf.stack] along axis 0, of matrices and of rank-3 tensors. *)
Definition stack2 (ts : list tensor2) : tensor3 :=
  let '(r, c) := shape2 (hd zeros2 ts) in
  {| shape3 := (List.length ts, r, c);
     at3 := fun i q k => at2 (nth i ts zeros2) q k |}.

Definition stack3 (ts : list tensor3) : tensor4 :=
  let '(d0, d1, d2) := shape3 (hd zeros3 ts) in
  {| shape4 := (List.length ts, d0, d1, d2);
     at4 := fun i j q k => at3 (nth i ts zeros3) j q k |}.

(** [tf.expand_dims(t, 0)]. *)
Definition expand_dims2 (t : tensor2) : tensor3 :=
  let '(r, c) := shape2 t in
  {| shape3 := (1%nat, r, c); at3 := fun _ q k => at2 t q k |}.

Definition expand_dims3 (t : tensor3) : tensor4 :=
  let '(d0, d1, d2) := shape3 t in
  {| shape4 := (1%nat, d0, d1, d2); at4 := fun _ j q k => at3 t j q k |}.

(** ** [sharp_diff_error] *)
Definition pos (channels : nat) : tensor2 := identity channels.
Definition neg (channels : nat) : tensor2 := map2 (fun x => -1 * x) (pos channels).

Definition filter_x (channels : nat) : tensor4 :=
  expand_dims3 (stack2 [neg channels; pos channels]).

Definition filter_y (channels : nat) : tensor4 :=
  stack3 [expand_dims2 (pos channels); expand_dims2 (neg channels)].

Definition sharp_diff_error (gen_frames gt_frames : tensor4) (channels : nat)
  : result R :=
  let num_pixels := num_pixels_of gen_frames in
  gen_dx <- conv2d_same gen_frames (filter_x channels) ;;
  gen_dy <- conv2d_same gen_frames (filter_y channels) ;;
  gt_dx <- conv2d_same gt_frames (filter_x channels) ;;
  gt_dy <- conv2d_same gt_frames (filter_y channels) ;;
  let gen_dx := map4 Rabs gen_dx in
  let gen_dy := map4 Rabs gen_dy in
  let gt_dx := map4 Rabs gt_dx in
  let gt_dy := map4 Rabs gt_dy in
  gen_grad_sum <- zip4 Rplus gen_dx gen_dy ;;
  gt_grad_sum <- zip4 Rplus gt_dx gt_dy ;;
  diff <- zip4 Rminus gt_grad_sum gen_grad_sum ;;
  let grad_diff := map4 Rabs diff in
  let batch_errors :=
    map1 (fun x => 10 * x)
      (log10 (map1 (fun s => 1 / ((1 / num_pixels) * s))
                   (reduce_sum_123 grad_diff))) in
  Ok (reduce_mean batch_errors).

(** ** [diff_mask] *)

(** [tf.image.rgb_to_grayscale] on a float tensor, as TensorFlow 1.x
    computes it: the image times the weights [0.2989, 0.5870, 0.1140]
    along the last axis (broadcast against it), summed over that axis with
    the axis kept. *)
Definition rgb_weights (k : nat) : R :=
  match k with
  | O => 2989 / 10000
  | S O => 5870 / 10000
  | S (S O) => 1140 / 10000
  | _ => 0
  end.

Definition rgb_to_grayscale (images : tensor4) : result tensor4 :=
  let '(b, h, w, c) := shape4 images in
  match bdim c 3 with
  | Some d =>
      Ok {| shape4 := (b, h, w, 1%nat);
            at4 := fun n i j _ =>
                     sum_upto d (fun k => at4 images n i j (bidx c k) * rgb_weights k) |}
  | None => Raise InvalidArgumentError
  end.

Definition diff_mask (gen_frames gt_frames : tensor4) (min_value max_value : R)
  : result tensor4 :=
  let delta := max_value - min_value in
  let gen_frames := map4 (fun x => (x - min_value) / delta) gen_frames in
  let gt_frames := map4 (fun x => (x - min_value) / delta) gt_frames in
  gen_gray_frames <- rgb_to_grayscale gen_frames ;;
  gt_gray_frames <- rgb_to_grayscale gt_frames ;;
  diff <- zip4 Rminus gen_gray_frames gt_gray_frames ;;
  Ok (map4 Rabs diff).

(** ** The formulas the metrics are meant to compute, written
       independently of the code, for tensors of shape [b, h, w, c]. *)

Definition log10r (x : R) : R := ln x / ln 10.

(** The mean of [f] over the index box [h * w * c]. *)
Definition sum_box (h w c : nat) (f : nat -> nat -> nat -> R) : R :=
  sum_upto h (fun i => sum_upto w (fun j => sum_upto c (fun k => f i j k))).

Definition mean_box (h w c : nat) (f : nat -> nat -> nat -> R) : R :=
  sum_box h w c f / INR (h * w * c).

Definition batch_mean (b : nat) (f : nat -> R) : R :=
  sum_upto b f / INR b.

Definition rescale01 (x : R) : R := (x + 1) / 2.

(** Mean squared error of frame [n] after rescaling to [0, 1]. *)
Definition mse (h w c : nat) (gen gt : tensor4) (n : nat) : R :=
  mean_box h w c (fun i j k =>
    Rsqr (rescale01 (at4 gt n i j k) - rescale01 (at4 gen n i j k))).

Definition psnr_formula (b h w c : nat) (gen gt : tensor4) : R :=
  batch_mean b (fun n => 10 * log10r (1 / mse h w c gen gt n)).


(** The tensor of pixel values [v], normalised as [np_load_frame] does. *)
Definition normalized (pixels : tensor4) : tensor4 :=
  map4 (fun v => v / (255 / 2) - 1) pixels.

(** PSNR of 8-bit frames, with peak value 255. *)
Definition psnr255_formula (b h w c : nat) (gen_pixels gt_pixels : tensor4) : R :=
  batch_mean b (fun n =>
    10 * log10r
      (Rsqr 255
       / mean_box h w c (fun i j k =>
           Rsqr (at4 gt_pixels n i j k - at4 gen_pixels n i j k)))).

(** Every entry inside the shape [b, h, w, c] satisfies [P]. *)
Definition entries_in (b h w c : nat) (P : R -> Prop) (t : tensor4) : Prop :=
  forall n i j k, (n < b)%nat -> (i < h)%nat -> (j < w)%nat -> (k < c)%nat ->
                  P (at4 t n i j k).

(** The grey level of a pixel with three channels. *)
Definition gray (t : tensor4) (n i j : nat) : R :=
  2989 / 10000 * at4 t n i j 0 + 5870 / 10000 * at4 t n i j 1
  + 1140 / 10000 * at4 t n i j 2.

(** Entries beyond the last column or row read as zero (SAME padding). *)
Definition entry (h w : nat) (t : tensor4) (n i j k : nat) : R :=
  if ((i <? h) && (j <? w))%nat then at4 t n i j k else 0.

(** Horizontal gradient, filter [-1, 1]; vertical gradient, filter
    [[1], [-1]]. *)
Definition grad_x (h w : nat) (t : tensor4) (n i j k : nat) : R :=
  - entry h w t n i j k + entry h w t n i (j + 1) k.

Definition grad_y (h w : nat) (t : tensor4) (n i j k : nat) : R :=
  entry h w t n i j k - entry h w t n (i + 1) j k.

Definition grad_sum (h w : nat) (t : tensor4) (n i j k : nat) : R :=
  Rabs (grad_x h w t n i j k) + Rabs (grad_y h w t n i j k).

Definition sharp_diff_formula (b h w c : nat) (gen gt : tensor4) : R :=
  batch_mean b (fun n =>
    10 * log10r
      (INR (h * w * c)
       / sum_box h w c (fun i j k =>
           Rabs (grad_sum h w gt n i j k - grad_sum h w gen n i j k)))).

End Metrics.

(* ===================================================================== *)
(** * The checkpoint wrappers *)
(* ===================================================================== *)

Module Ckpt.

Section WithFramework.
(** The framework's objects are opaque to the wrapper. *)
Variables saver session : Type.

(** The calls [save] and [load] issue, in the order they are issued. *)
Inductive call : Type :=
| os_path_exists (path : string)
| os_makedirs (path : string)
| saver_save (s : saver) (sess : session) (save_path : string) (global_step : Z)
| saver_restore (s : saver) (sess : session) (save_path : string)
| print (msg : string).

(** The surroundings of a run: what [os.path.exists] answers and which
    calls raise. *)
Record env : Type := {
  exists_ : string -> bool;
  makedirs_raises : string -> bool;
  save_raises : string -> Z -> bool;
  restore_raises : string -> bool
}.

(** A computation: the calls issued, and the value or the exception it
    ends with. *)
Definition io (A : Type) : Type := env -> list call * result A.

Definition io_ret {A} (a : A) : io A := fun _ => ([], Ok a).

Definition io_bind {A B} (m : io A) (k : A -> io B) : io B :=
  fun e =>
    match m e with
    | (t, Ok a) => let '(t', r) := k a e in (t ++ t', r)
    | (t, Raise x) => (t, Raise x)
    end.

Definition do_exists (p : string) : io bool :=
  fun e => ([os_path_exists p], Ok (exists_ e p)).

Definition do_makedirs (p : string) : io unit :=
  fun e => ([os_makedirs p],
            if makedirs_raises e p then Raise OSError else Ok tt).

Definition do_save (s : saver) (sess : session) (p : string) (step : Z) : io unit :=
  fun e => ([saver_save s sess p step],
            if save_raises e p step then Raise OSError else Ok tt).

Definition do_restore (s : saver) (sess : session) (p : string) : io unit :=
  fun e => ([saver_restore s sess p],
            if restore_raises e p then Raise OSError else Ok tt).

Definition do_print (msg : string) : io unit :=
  fun _ => ([print msg], Ok tt).

Definition load (s : saver) (sess : session) (ckpt_path : string) : io unit :=
  io_bind (do_restore s sess ckpt_path) (fun _ =>
  do_print ("Restored model parameters from " ++ ckpt_path)).

Definition save (s : saver) (sess : session) (logdir : string) (step : Z) : io unit :=
  let model_name := "model.ckpt"%string in
  let checkpoint_path := os_path_join logdir model_name in
  io_bind (do_exists logdir) (fun present =>
  io_bind (if negb present then do_makedirs logdir else io_ret tt) (fun _ =>
  io_bind (do_save s sess checkpoint_path step) (fun _ =>
  do_print "The checkpoint has been created."))).

(** The calls that touch the file system. *)
Definition is_fs_call (c : call) : bool :=
  match c with
  | print _ => false
  | _ => true
  end.

Definition is_saver_save (c : call) : bool :=
  match c with
  | saver_save _ _ _ _ => true
  | _ => false
  end.

End WithFramework.

End Ckpt.

(* ===================================================================== *)
(** * A small concrete world, used to run the definitions *)
(* ===================================================================== *)

Module Demo.

Definition nth_or_raise {A} (l : list A) (i : nat) : result A :=
  match nth_error l i with
  | Some x => Ok x
  | None => Raise CvError
  end.

(** Nearest-neighbour resizing. *)
Definition resize_nn (img : image8) (dsize : nat * nat) : result image8 :=
  let '(w, h) := dsize in
  if ((w =? 0) || (h =? 0))%nat then Raise CvError
  else
    for_append
      (fun i =>
         row <- nth_or_raise img (i * List.length img / h) ;;
         for_append (fun j => nth_or_raise row (j * List.length row / w)) (seq 0 w))
      (seq 0 h).

(** A 1 x 2 image with a dark and a bright pixel. *)
Definition two_tone (lo hi : Z) : image8 := [[[lo; lo; lo]; [hi; hi; hi]]].

Definition files : dict image8 :=
  [ ("frames/01/0.jpg", two_tone 0 255);
    ("frames/01/1.jpg", two_tone 10 245);
    ("frames/01/2.jpg", two_tone 20 235);
    ("frames/01/3.jpg", two_tone 30 225);
    ("frames/01/4.jpg", two_tone 40 215);
    ("frames/01/5.jpg", two_tone 50 205);
    ("frames/02/0.jpg", two_tone 100 101);
    ("frames/02/1.jpg", two_tone 102 103);
    ("frames/02/2.jpg", two_tone 104 105) ]%string%Z.

Definition listing : dict (list string) :=
  [ ("frames/*", ["frames/02"; "frames/01"]);
    ("frames/01/*.jpg",
      ["frames/01/3.jpg"; "frames/01/0.jpg"; "frames/01/5.jpg";
       "frames/01/1.jpg"; "frames/01/4.jpg"; "frames/01/2.jpg"]);
    ("frames/02/*.jpg",
      ["frames/02/2.jpg"; "frames/02/0.jpg"; "frames/02/1.jpg"]) ]%string.

Definition world : Extern := {|
  imread := fun f => dict_get files f;
  resize := resize_nn;
  glob := fun pattern =>
            match dict_get listing pattern with
            | Some l => l
            | None => []
            end
|}.

Definition loader : Loader.DataLoader :=
  Loader.__init__ (E := world) "frames" 2 2.

(** The same world after the file [frames/02/1.jpg] became unreadable. *)
Definition damaged_world : Extern := {|
  imread := fun f => if String.eqb f "frames/02/1.jpg" then None
                     else dict_get files f;
  resize := resize_nn;
  glob := glob (Extern := world)
|}.

Definition video02 : Loader.video_info := {|
  Loader.v_path := "frames/02";
  Loader.v_frame := ["frames/02/0.jpg"; "frames/02/1.jpg"; "frames/02/2.jpg"]%string;
  Loader.v_length := 3
|}.

(** What loading a two-tone file at size 2 x 2 gives. *)
Definition loaded (lo hi : Z) : imagef :=
  map3 (fun v => inject_Z v / (255 # 2) - 1)%Q
       [[[lo; lo; lo]; [hi; hi; hi]]; [[lo; lo; lo]; [hi; hi; hi]]].

(** Two small batches of frames, and surroundings in which only the
    directory [logs] exists and no call fails. *)
Definition gen_frames : Metrics.tensor4 := {|
  Metrics.shape4 := (2, 2, 2, 3)%nat;
  Metrics.at4 := fun n i j k => (INR (i + j) / 2 - 1)%R
|}.

Definition gt_frames : Metrics.tensor4 := {|
  Metrics.shape4 := (2, 2, 2, 3)%nat;
  Metrics.at4 := fun n i j k => (if (n =? k)%nat then 1 else -1)%R
|}.

(** Pixel values of two batches, a batch of other height, and a vector of
    powers of ten. *)
Definition gen_pixels : Metrics.tensor4 := {|
  Metrics.shape4 := (2, 2, 2, 3)%nat;
  Metrics.at4 := fun n i j k => (100 * INR (i + j))%R
|}.

Definition gt_pixels : Metrics.tensor4 := {|
  Metrics.shape4 := (2, 2, 2, 3)%nat;
  Metrics.at4 := fun n i j k => (if (n =? k)%nat then 255 else 0)%R
|}.


Definition powers_of_ten : Metrics.tensor1 := {|
  Metrics.shape1 := 4%nat;
  Metrics.at1 := fun i => (10 ^ i)%R
|}.

Definition surroundings : Ckpt.env := {|
  Ckpt.exists_ := fun p => String.eqb p "logs";
  Ckpt.makedirs_raises := fun _ => false;
  Ckpt.save_raises := fun _ _ => false;
  Ckpt.restore_raises := fun _ => false
|}.

Definition video01 : Loader.video_info := {|
  Loader.v_path := "frames/01";
  Loader.v_frame :=
    ["frames/01/0.jpg"; "frames/01/1.jpg"; "frames/01/2.jpg";
     "frames/01/3.jpg"; "frames/01/4.jpg"; "frames/01/5.jpg"]%string;
  Loader.v_length := 6
|}.

End Demo.

(* ===================================================================== *)
(** * Facts about the Python fragment *)
(* ===================================================================== *)

Section PyFacts.

Lemma bind_ok_inv A B (m : result A) (k : A -> result B) (b : B) :
  bind m k = Ok b -> exists a, m = Ok a /\ k a = Ok b.
Proof.
  destruct m as [a|e]; simpl; intros H; [eauto | discriminate].
Qed.

Lemma for_append_Forall2 A B (f : A -> result B) (xs : list A) (ys : list B) :
  for_append f xs = Ok ys <-> Forall2 (fun x y => f x = Ok y) xs ys.
Proof.
  revert ys; induction xs as [|x xs IH]; intros ys; simpl.
  - split; intros H.
    + injection H as <-. constructor.
    + inversion H. reflexivity.
  - split; intros H.
    + apply bind_ok_inv in H as (y & Hy & H).
      apply bind_ok_inv in H as (ys' & Hys & H).
      injection H as <-. constructor; [exact Hy | now apply IH].
    + inversion H as [|x' y xs' ys' Hy Hys]; subst.
      rewrite Hy; simpl. apply IH in Hys. rewrite Hys. reflexivity.
Qed.

Lemma for_append_map A B (f : A -> result B) (g : A -> B) (xs : list A) :
  (forall x, In x xs -> f x = Ok (g x)) ->
  for_append f xs = Ok (map g xs).
Proof.
  induction xs as [|x xs IH]; intros H; simpl; [reflexivity|].
  rewrite (H x (or_introl eq_refl)); simpl.
  rewrite IH by (intros y Hy; apply H; now right). reflexivity.
Qed.

Lemma for_append_ext A B (f g : A -> result B) (xs : list A) :
  (forall x, In x xs -> f x = g x) ->
  for_append f xs = for_append g xs.
Proof.
  induction xs as [|x xs IH]; intros H; simpl; [reflexivity|].
  rewrite (H x (or_introl eq_refl)).
  rewrite IH by (intros y Hy; apply H; now right). reflexivity.
Qed.

Lemma range_empty (start stop : Z) :
  (stop <= start)%Z -> range start stop = [].
Proof.
  intros H. unfold range.
  replace (Z.to_nat (stop - start)) with O by lia. reflexivity.
Qed.

Lemma range_length (start stop : Z) :
  List.length (range start stop) = Z.to_nat (stop - start).
Proof. unfold range. now rewrite length_map, length_seq. Qed.

Lemma in_range (start stop i : Z) :
  In i (range start stop) <-> (start <= i < stop)%Z.
Proof.
  unfold range. rewrite in_map_iff. split.
  - intros (k & <- & Hk). apply in_seq in Hk. lia.
  - intros H. exists (Z.to_nat (i - start)). split; [lia|].
    apply in_seq. lia.
Qed.

Lemma range_cons (start stop : Z) :
  (start < stop)%Z -> range start stop = start :: range (start + 1) stop.
Proof.
  intros H. unfold range.
  replace (Z.to_nat (stop - start)) with (S (Z.to_nat (stop - (start + 1)))) by lia.
  simpl. f_equal; [lia|].
  rewrite <- seq_shift, map_map. apply map_ext. intros k. lia.
Qed.

(** An index inside [0, len) reads the element at that position. *)
Lemma list_getitem_nonneg A (l : list A) (i : Z) :
  (0 <= i < Z.of_nat (List.length l))%Z ->
  exists x, nth_error l (Z.to_nat i) = Some x /\ list_getitem l i = Ok x.
Proof.
  intros H. unfold list_getitem, norm_index.
  replace (i <? 0)%Z with false by lia.
  replace ((0 <=? i) && (i <? Z.of_nat (List.length l)))%Z with true by lia.
  destruct (nth_error l (Z.to_nat i)) as [x|] eqn:Hx; [eauto|].
  apply nth_error_None in Hx. lia.
Qed.

(** An index inside [-len, 0) reads from the end. *)
Lemma list_getitem_negative A (l : list A) (i : Z) :
  (- Z.of_nat (List.length l) <= i < 0)%Z ->
  exists x, nth_error l (Z.to_nat (i + Z.of_nat (List.length l))) = Some x /\
            list_getitem l i = Ok x.
Proof.
  intros H. unfold list_getitem, norm_index.
  replace (i <? 0)%Z with true by lia.
  set (n := Z.of_nat (List.length l)) in *.
  replace ((0 <=? i + n) && (i + n <? n))%Z with true by lia.
  destruct (nth_error l (Z.to_nat (i + n))) as [x|] eqn:Hx; [eauto|].
  apply nth_error_None in Hx. lia.
Qed.

(** A successful read with a non-negative index is a read at that
    position. *)
Lemma list_getitem_ok_nonneg A (l : list A) (i : Z) (x : A) :
  (0 <= i)%Z -> list_getitem l i = Ok x ->
  nth_error l (Z.to_nat i) = Some x /\ (i < Z.of_nat (List.length l))%Z.
Proof.
  intros Hi. unfold list_getitem, norm_index.
  replace (i <? 0)%Z with false by lia.
  destruct ((0 <=? i) && (i <? Z.of_nat (List.length l)))%Z eqn:Hb; [|discriminate].
  destruct (nth_error l (Z.to_nat i)) as [y|]; [|discriminate].
  intros [= <-]. split; [reflexivity | lia].
Qed.

Lemma dict_get_In V (d : dict V) (k : string) (v : V) :
  dict_get d k = Some v -> In (k, v) d.
Proof.
  induction d as [|[k' v'] d IH]; simpl; [discriminate|].
  destruct (String.eqb_spec k' k) as [->|Hne].
  - intros [= ->]. now left.
  - intros H. right. now apply IH.
Qed.

Lemma dict_get_keys V (d : dict V) (k : string) :
  dict_get d k <> None <-> In k (dict_keys d).
Proof.
  induction d as [|[k' v'] d IH]; simpl; [tauto|].
  destruct (String.eqb_spec k' k) as [->|Hne].
  - split; [now left | discriminate].
  - rewrite IH. split; [now right | intros [H|H]; [contradiction | exact H]].
Qed.

Lemma existsb_eqb_In (k : string) (ks : list string) :
  existsb (String.eqb k) ks = true <-> In k ks.
Proof.
  rewrite existsb_exists. split.
  - intros (x & Hx & He). apply String.eqb_eq in He. now subst.
  - intros H. exists k. split; [exact H | apply String.eqb_refl].
Qed.

(** Entries of a dictionary after an assignment: the value assigned, or
    an entry that was there. *)
Lemma dict_set_In V (d : dict V) (k k0 : string) (v v0 : V) :
  In (k0, v0) (dict_set d k v) -> (k0, v0) = (k, v) \/ In (k0, v0) d.
Proof.
  induction d as [|[k' v'] d IH]; simpl.
  - intros [H|[]]. left. now symmetry.
  - destruct (String.eqb k' k); simpl.
    + intros [H|H]; [left; now symmetry | right; now right].
    + intros [H|H]; [right; now left|].
      destruct (IH H) as [?|?]; [now left | right; now right].
Qed.

End PyFacts.

(* ===================================================================== *)
(** * Facts about arrays *)
(* ===================================================================== *)

Lemma combine_map_seq_both X Y Z (f : X -> Y) (g : X -> Z) (l : list X) :
  combine (map f l) (map g l) = map (fun x => (f x, g x)) l.
Proof. induction l as [|x l IH]; simpl; [reflexivity | now rewrite IH]. Qed.

Section NpFacts.
Context {A : Type}.
Implicit Types a b acc : ndarray3 A.

Lemma has_shape_hw h w c a : has_shape h w c a -> has_hw h w a.
Proof.
  intros [Hl Hr]. split; [exact Hl|].
  eapply Forall_impl; [|exact Hr]. now intros row [? _].
Qed.

Lemma has_hw_row h w a i :
  has_hw h w a -> (i < h)%nat -> List.length (nth i a []) = w.
Proof.
  intros [Hl Hr] Hi. rewrite Forall_forall in Hr.
  apply Hr, nth_In. lia.
Qed.

Lemma same_hw_true h w a b : has_hw h w a -> has_hw h w b -> same_hw a b = true.
Proof.
  intros [Ha Hra] [Hb Hrb]. unfold same_hw.
  apply andb_true_iff. split; [apply Nat.eqb_eq; lia|].
  apply forallb_forall. intros [ra rb] Hin. simpl.
  rewrite Forall_forall in Hra, Hrb.
  apply Nat.eqb_eq.
  rewrite (Hra ra) by (eapply in_combine_l; eauto).
  rewrite (Hrb rb) by (eapply in_combine_r; eauto). reflexivity.
Qed.

Lemma tabulate_length h w (px : nat -> nat -> list A) :
  List.length (tabulate h w px) = h.
Proof. unfold tabulate. now rewrite length_map, length_seq. Qed.

Lemma tabulate_hw h w (px : nat -> nat -> list A) : has_hw h w (tabulate h w px).
Proof.
  split; [apply tabulate_length|].
  unfold tabulate. apply Forall_forall. intros row Hin.
  apply in_map_iff in Hin as (i & <- & _). now rewrite length_map, length_seq.
Qed.

Lemma tabulate_pixel h w (px : nat -> nat -> list A) i j :
  (i < h)%nat -> (j < w)%nat -> pixel_at (tabulate h w px) i j = px i j.
Proof.
  intros Hi Hj. unfold pixel_at, tabulate.
  rewrite (nth_indep _ [] (map (fun j => px O j) (seq 0 w)))
    by (now rewrite length_map, length_seq).
  rewrite (map_nth (fun i => map (fun j => px i j) (seq 0 w)) (seq 0 h) O i).
  rewrite seq_nth by exact Hi. simpl.
  rewrite (nth_indep _ [] (px i O)) by (now rewrite length_map, length_seq).
  rewrite (map_nth (fun j => px i j) (seq 0 w) O j).
  now rewrite seq_nth.
Qed.

Lemma tabulate_ext h w (px px' : nat -> nat -> list A) :
  (forall i j, (i < h)%nat -> (j < w)%nat -> px i j = px' i j) ->
  tabulate h w px = tabulate h w px'.
Proof.
  intros H. unfold tabulate. apply map_ext_in. intros i Hi.
  apply map_ext_in. intros j Hj. apply in_seq in Hi, Hj. apply H; lia.
Qed.

(** A rectangular array is the table of its pixels. *)
Lemma has_hw_tabulate h w a : has_hw h w a -> a = tabulate h w (pixel_at a).
Proof.
  intros Hhw. pose proof Hhw as [Hl Hr].
  apply (nth_ext _ _ [] []).
  - now rewrite tabulate_length.
  - intros i Hi. rewrite Hl in Hi.
    apply (nth_ext _ _ [] []).
    + rewrite (has_hw_row Hhw Hi).
      symmetry. exact (has_hw_row (tabulate_hw h w (pixel_at a)) Hi).
    + intros j Hj. rewrite (has_hw_row Hhw Hi) in Hj.
      symmetry. exact (tabulate_pixel (pixel_at a) Hi Hj).
Qed.

Lemma cat2_tabulate h w a b :
  has_hw h w a -> has_hw h w b ->
  cat2 a b = tabulate h w (fun i j => pixel_at a i j ++ pixel_at b i j).
Proof.
  intros Ha Hb.
  rewrite (has_hw_tabulate Ha) at 1. rewrite (has_hw_tabulate Hb) at 1.
  unfold cat2, tabulate.
  rewrite combine_map_seq_both. rewrite map_map.
  apply map_ext. intros i. simpl.
  rewrite combine_map_seq_both. rewrite map_map. reflexivity.
Qed.

Lemma fold_cat2_tabulate h w (rest : list (ndarray3 A)) acc :
  has_hw h w acc -> Forall (has_hw h w) rest ->
  fold_left cat2 rest acc =
  tabulate h w (fun i j =>
    pixel_at acc i j ++ List.concat (map (fun f => pixel_at f i j) rest)).
Proof.
  intros Hacc Hrest. revert acc Hacc.
  induction Hrest as [|b rest Hb Hrest IH]; intros acc Hacc; simpl.
  - rewrite (has_hw_tabulate Hacc) at 1.
    apply tabulate_ext. intros i j _ _. now rewrite app_nil_r.
  - rewrite (cat2_tabulate Hacc Hb).
    rewrite IH by apply tabulate_hw.
    apply tabulate_ext. intros i j Hi Hj.
    rewrite tabulate_pixel by assumption. now rewrite app_assoc.
Qed.

(** [np.concatenate(axis=2)] of arrays of equal height and width is the
    pixel-wise concatenation of their channels. *)
Lemma concatenate_axis2_channel_concat h w (fs : list (ndarray3 A)) :
  fs <> [] -> Forall (has_hw h w) fs ->
  concatenate_axis2 fs = Ok (channel_concat h w fs).
Proof.
  intros Hne Hfs. destruct fs as [|a rest]; [contradiction|].
  inversion Hfs as [|? ? Ha Hrest]; subst. unfold concatenate_axis2.
  replace (forallb (same_hw a) rest) with true.
  - f_equal. rewrite (fold_cat2_tabulate Ha Hrest). reflexivity.
  - symmetry. apply forallb_forall. intros b Hb.
    rewrite Forall_forall in Hrest. eapply same_hw_true; eauto.
Qed.

Lemma length_concat_uniform (c : nat) (ls : list (list A)) :
  Forall (fun l => List.length l = c) ls ->
  List.length (List.concat ls) = (c * List.length ls)%nat.
Proof.
  induction 1 as [|l ls Hl _ IH]; simpl; [lia|].
  rewrite length_app, IH, Hl. lia.
Qed.

Lemma has_shape_pixel h w c a i j :
  has_shape h w c a -> (i < h)%nat -> (j < w)%nat ->
  List.length (pixel_at a i j) = c.
Proof.
  intros [Hl Hr] Hi Hj. rewrite Forall_forall in Hr.
  destruct (Hr (nth i a [])) as [Hw Hp]; [apply nth_In; lia|].
  rewrite Forall_forall in Hp. apply Hp, nth_In. lia.
Qed.

(** Joining [n] arrays of shape [h, w, c] gives shape [h, w, c * n]. *)
Lemma channel_concat_shape h w c (fs : list (ndarray3 A)) :
  Forall (has_shape h w c) fs ->
  has_shape h w (c * List.length fs) (channel_concat h w fs).
Proof.
  intros Hfs. split; [apply tabulate_length|].
  unfold channel_concat, tabulate. apply Forall_forall. intros row Hrow.
  apply in_map_iff in Hrow as (i & <- & Hi). apply in_seq in Hi.
  split; [now rewrite length_map, length_seq|].
  apply Forall_forall. intros px Hpx.
  apply in_map_iff in Hpx as (j & <- & Hj). apply in_seq in Hj.
  rewrite (length_concat_uniform (c := c)).
  - now rewrite length_map.
  - apply Forall_forall. intros l Hl.
    apply in_map_iff in Hl as (f & <- & Hf).
    rewrite Forall_forall in Hfs.
    apply (has_shape_pixel (Hfs f Hf)); lia.
Qed.

End NpFacts.

Lemma map3_map3 X Y Z (f : Y -> Z) (g : X -> Y) (a : ndarray3 X) :
  map3 f (map3 g a) = map3 (fun x => f (g x)) a.
Proof.
  unfold map3. rewrite map_map. apply map_ext. intros row.
  rewrite map_map. apply map_ext. intros px. apply map_map.
Qed.

Lemma map3_shape X Y (f : X -> Y) h w c (a : ndarray3 X) :
  has_shape h w c a -> has_shape h w c (map3 f a).
Proof.
  intros [Hl Hr]. split; [unfold map3; now rewrite length_map|].
  unfold map3. apply Forall_map.
  eapply Forall_impl; [|exact Hr]. intros row [Hw Hp].
  split; [now rewrite length_map|].
  apply Forall_map. eapply Forall_impl; [|exact Hp].
  intros px Hc. now rewrite length_map.
Qed.

Lemma map3_all_elements X Y (f : X -> Y) (P : X -> Prop) (Q : Y -> Prop)
      (a : ndarray3 X) :
  (forall x, P x -> Q (f x)) -> all_elements P a -> all_elements Q (map3 f a).
Proof.
  intros HPQ Ha. unfold all_elements, map3 in *.
  apply Forall_map. eapply Forall_impl; [|exact Ha]. intros row Hrow.
  apply Forall_map. eapply Forall_impl; [|exact Hrow]. intros px Hpx.
  apply Forall_map. eapply Forall_impl; [|exact Hpx]. exact HPQ.
Qed.

Lemma Forall2_In_r X Y (R : X -> Y -> Prop) (xs : list X) (ys : list Y) (y : Y) :
  Forall2 R xs ys -> In y ys -> exists x, In x xs /\ R x y.
Proof.
  induction 1 as [|x y' xs ys HR _ IH]; simpl; [contradiction|].
  intros [<-|Hin].
  - exists x. split; [now left | exact HR].
  - destruct (IH Hin) as (x0 & Hx0 & HR0). exists x0. split; [now right | exact HR0].
Qed.

(* ===================================================================== *)
(** * The demo world keeps OpenCV's promises *)
(* ===================================================================== *)

Section DemoFacts.

Lemma nth_or_raise_In X (l : list X) (i : nat) (x : X) :
  Demo.nth_or_raise l i = Ok x -> In x l.
Proof.
  unfold Demo.nth_or_raise.
  destruct (nth_error l i) as [y|] eqn:Hy; [|discriminate].
  intros [= <-]. eapply nth_error_In; eauto.
Qed.

(** Every pixel of the resized image is a pixel of the source. *)
Lemma resize_nn_inv (img r : image8) (w h : nat) :
  Demo.resize_nn img (w, h) = Ok r ->
  List.length r = h /\
  Forall (fun row' => List.length row' = w /\
            Forall (fun px => exists row, In row img /\ In px row) row') r.
Proof.
  unfold Demo.resize_nn.
  destruct ((w =? 0) || (h =? 0))%nat; [discriminate|].
  intros H. apply for_append_Forall2 in H. split.
  - apply Forall2_length in H. now rewrite length_seq in H.
  - apply Forall_forall. intros row' Hrow'.
    destruct (@Forall2_In_r _ _ _ _ _ _ H Hrow') as (i & _ & Hi).
    apply bind_ok_inv in Hi as (row & Hrow & Hi).
    apply nth_or_raise_In in Hrow.
    apply for_append_Forall2 in Hi. split.
    + apply Forall2_length in Hi. now rewrite length_seq in Hi.
    + apply Forall_forall. intros px Hpx.
      destruct (@Forall2_In_r _ _ _ _ _ _ Hi Hpx) as (j & _ & Hj).
      apply nth_or_raise_In in Hj. eauto.
Qed.

Lemma demo_files_color :
  Forall (fun entry => all_channels 3 (snd entry)) Demo.files.
Proof. repeat constructor. Qed.

Lemma demo_spec : ExternSpec Demo.world.
Proof.
  split.
  - intros f img H. change (dict_get Demo.files f = Some img) in H.
    apply dict_get_In in H.
    pose proof demo_files_color as HF. rewrite Forall_forall in HF.
    exact (HF _ H).
  - intros img w h c r Hc H. change (Demo.resize_nn img (w, h) = Ok r) in H.
    apply resize_nn_inv in H as [Hl Hr]. split; [exact Hl|].
    eapply Forall_impl; [|exact Hr]. intros row' [Hw Hp]. split; [exact Hw|].
    eapply Forall_impl; [|exact Hp]. intros px (row & Hrow & Hpx).
    unfold all_channels in Hc. rewrite Forall_forall in Hc.
    specialize (Hc row Hrow). rewrite Forall_forall in Hc. now apply Hc.
  - intros img [w h] r Hu H. change (Demo.resize_nn img (w, h) = Ok r) in H.
    apply resize_nn_inv in H as [Hl Hr].
    unfold is_uint8, all_elements in *.
    eapply Forall_impl; [|exact Hr]. intros row' [Hw Hp].
    eapply Forall_impl; [|exact Hp]. intros px (row & Hrow & Hpx).
    rewrite Forall_forall in Hu. specialize (Hu row Hrow).
    rewrite Forall_forall in Hu. now apply Hu.
Qed.

End DemoFacts.

(* ===================================================================== *)
(** * [np_load_frame] *)
(* ===================================================================== *)

Section LoadFrame.
Context {E : Extern} {ES : ExternSpec E}.

Lemma normalize_range (v : Z) :
  (0 <= v <= 255)%Z ->
  (-1 <= inject_Z v / (255 # 2) - 1 /\ inject_Z v / (255 # 2) - 1 <= 1)%Q.
Proof.
  intros Hv. unfold Qle, Qdiv, Qminus, Qplus, Qmult, Qinv, Qopp, inject_Z.
  simpl. lia.
Qed.

(** C4.  A file whose decoded pixels are 8-bit values is returned resized
    to [resize_height] rows and [resize_width] columns of three channels,
    every value [v] of the resized image mapped to [v / 127.5 - 1], and
    every element of the result lies in [-1, 1]. *)
Theorem np_load_frame_normalizes
        (filename : string) (resize_height resize_width : nat)
        (image_decoded image_resized : image8) :
  imread filename = Some image_decoded ->
  is_uint8 image_decoded ->
  resize image_decoded (resize_width, resize_height) = Ok image_resized ->
  let out := map3 (fun v => inject_Z v / (255 # 2) - 1)%Q image_resized in
  Loader.np_load_frame filename resize_height resize_width = Ok out /\
  has_shape resize_height resize_width 3 out /\
  all_elements (fun x => -1 <= x /\ x <= 1)%Q out.
Proof.
  intros Hread Hu8 Hres out. split; [|split].
  - unfold Loader.np_load_frame. rewrite Hread, Hres. simpl.
    now rewrite map3_map3.
  - apply map3_shape.
    eapply resize_shape; [eapply imread_color; exact Hread | exact Hres].
  - eapply map3_all_elements; [|eapply resize_uint8; [exact Hu8 | exact Hres]].
    intros v Hv. now apply normalize_range.
Qed.

(** Whatever [np_load_frame] returns has the requested shape. *)
Lemma np_load_frame_shape (filename : string) (rh rw : nat) (arr : imagef) :
  Loader.np_load_frame filename rh rw = Ok arr -> has_shape rh rw 3 arr.
Proof.
  unfold Loader.np_load_frame.
  destruct (imread filename) as [img|] eqn:Hread; [|discriminate].
  intros H. apply bind_ok_inv in H as (r & Hres & H). injection H as <-.
  do 2 apply map3_shape.
  eapply resize_shape; [eapply imread_color; exact Hread | exact Hres].
Qed.

End LoadFrame.

Lemma np_load_frame_normalizes_witness :
  let out := map3 (fun v => inject_Z v / (255 # 2) - 1)%Q
                  [[[0; 0; 0]; [255; 255; 255]]; [[0; 0; 0]; [255; 255; 255]]]%Z in
  Loader.np_load_frame (E := Demo.world) "frames/01/0.jpg" 2 2 = Ok out /\
  has_shape 2 2 3 out /\
  all_elements (fun x => -1 <= x /\ x <= 1)%Q out.
Proof.
  apply (np_load_frame_normalizes (ES := demo_spec) "frames/01/0.jpg" 2 2
           (image_decoded := Demo.two_tone 0 255)).
  - reflexivity.
  - repeat constructor; lia.
  - reflexivity.
Defined.

(* ===================================================================== *)
(** * Clips *)
(* ===================================================================== *)

Section Clips.
Context {E : Extern} {ES : ExternSpec E}.

Lemma skipn_cons_nth X (l : list X) (n : nat) :
  (n < List.length l)%nat ->
  exists x, nth_error l n = Some x /\ skipn n l = x :: skipn (S n) l.
Proof.
  revert n; induction l as [|y l IH]; intros n Hn; simpl in Hn; [lia|].
  destruct n as [|n]; [exists y; split; reflexivity|].
  destruct (IH n ltac:(lia)) as (x & Hx & Hs). exists x. split; assumption.
Qed.

(** Reading the indices [start, start + n) one by one yields the slice. *)
Lemma getitem_offsets_slice X (l : list X) (n start : nat) :
  (start + n <= List.length l)%nat ->
  Forall2 (fun i x => list_getitem l i = Ok x)
          (map (fun k => (Z.of_nat start + Z.of_nat k)%Z) (seq 0 n))
          (firstn n (skipn start l)).
Proof.
  revert start; induction n as [|n IH]; intros start Hle; simpl; [constructor|].
  destruct (@skipn_cons_nth _ l start ltac:(lia)) as (x & Hx & Hs).
  rewrite Hs. simpl. constructor.
  - destruct (@list_getitem_nonneg _ l (Z.of_nat start) ltac:(lia))
      as (x' & Hx' & Hg).
    replace (Z.of_nat start + 0)%Z with (Z.of_nat start) by lia.
    rewrite Hg. f_equal.
    rewrite Nat2Z.id in Hx'. congruence.
  - rewrite <- seq_shift, map_map.
    specialize (IH (S start) ltac:(lia)).
    erewrite map_ext; [exact IH|]. intros k. cbv beta. lia.
Qed.

Lemma getitem_range_slice X (l : list X) (start stop : Z) :
  (0 <= start)%Z -> (stop <= Z.of_nat (List.length l))%Z ->
  Forall2 (fun i x => list_getitem l i = Ok x)
          (range start stop)
          (firstn (Z.to_nat (stop - start)) (skipn (Z.to_nat start) l)).
Proof.
  intros H0 Hle. unfold range.
  destruct (Z.le_gt_cases stop start) as [Hs|Hs].
  - replace (Z.to_nat (stop - start)) with O by lia. constructor.
  - pose proof (@getitem_offsets_slice _ l (Z.to_nat (stop - start)) (Z.to_nat start)
                  ltac:(lia)) as H.
    erewrite map_ext; [exact H|]. intros k. cbv beta. lia.
Qed.

Lemma for_append_through X Y Z (g : X -> result Y) (f : Y -> result Z)
      (xs : list X) (ys : list Y) :
  Forall2 (fun x y => g x = Ok y) xs ys ->
  for_append (fun x => y <- g x ;; f y) xs = for_append f ys.
Proof.
  induction 1 as [|x y xs ys Hg _ IH]; simpl; [reflexivity|].
  rewrite Hg. simpl. now rewrite IH.
Qed.

(** The loop over [range(start, stop)] loads the frames of the slice. *)
Lemma load_range_slice (info : Loader.video_info) (rh rw : nat) (start stop : Z) :
  (0 <= start)%Z -> (stop <= Z.of_nat (List.length (Loader.v_frame info)))%Z ->
  for_append
    (fun i => filename <- list_getitem (Loader.v_frame info) i ;;
              Loader.np_load_frame filename rh rw)
    (range start stop)
  = for_append (fun filename => Loader.np_load_frame filename rh rw)
               (Loader.frames_between info start stop).
Proof.
  intros H0 Hle. apply for_append_through.
  now apply getitem_range_slice.
Qed.

(** Frames loaded at one size join into the pixel-wise concatenation of
    their channels, three per frame. *)
Lemma concatenate_loaded (rh rw : nat) (names : list string) (loaded : list imagef) :
  Forall2 (fun f arr => Loader.np_load_frame f rh rw = Ok arr) names loaded ->
  names <> [] ->
  concatenate_axis2 loaded = Ok (channel_concat rh rw loaded) /\
  has_shape rh rw (3 * List.length names) (channel_concat rh rw loaded).
Proof.
  intros HF Hne.
  assert (Hsh : Forall (has_shape rh rw 3) loaded).
  { clear Hne. induction HF as [|f arr names loaded Hl _ IH]; constructor.
    - eapply np_load_frame_shape; eauto.
    - exact IH. }
  split.
  - apply concatenate_axis2_channel_concat.
    + destruct HF; [contradiction | discriminate].
    + eapply Forall_impl; [|exact Hsh]. intros a. apply has_shape_hw.
  - rewrite (Forall2_length HF). now apply channel_concat_shape.
Qed.

Lemma frames_between_length (info : Loader.video_info) (start stop : Z) :
  (0 <= start)%Z -> (stop <= Z.of_nat (List.length (Loader.v_frame info)))%Z ->
  List.length (Loader.frames_between info start stop) = Z.to_nat (stop - start).
Proof.
  intros H0 Hle. unfold Loader.frames_between.
  rewrite length_firstn, length_skipn. lia.
Qed.

End Clips.

Section GetVideoClips.
Context {E : Extern} {ES : ExternSpec E}.

Lemma dict_getitem_found V (d : dict V) (k : string) (v : V) :
  dict_get d k = Some v -> dict_getitem d k = Ok v.
Proof. unfold dict_getitem. now intros ->. Qed.

(** The loop of [get_video_clips] once the video is found. *)
Lemma get_video_clips_found (self : Loader.DataLoader) (video : string)
      (info : Loader.video_info) (start end_ : Z) :
  dict_get (Loader.videos self) video = Some info ->
  Loader.get_video_clips self video start end_ =
  (batch <- for_append
              (fun i => filename <- list_getitem (Loader.v_frame info) i ;;
                        Loader.np_load_frame filename
                          (Loader._resize_height self) (Loader._resize_width self))
              (range start end_) ;;
   concatenate_axis2 batch, self).
Proof.
  intros Hget. unfold Loader.get_video_clips. f_equal. f_equal.
  apply for_append_ext. intros i _.
  now rewrite (dict_getitem_found _ _ Hget).
Qed.

(** The clip of an index range inside a video whose ['length'] counts its
    frames. *)
Lemma get_video_clips_in_range
      (self : Loader.DataLoader) (video : string) (info : Loader.video_info)
      (start end_ : Z) (loaded : list imagef) :
  dict_get (Loader.videos self) video = Some info ->
  Loader.v_length info = Z.of_nat (List.length (Loader.v_frame info)) ->
  (0 <= start < end_)%Z ->
  (end_ <= Loader.v_length info)%Z ->
  Forall2 (fun filename arr =>
             Loader.np_load_frame filename
               (Loader._resize_height self) (Loader._resize_width self) = Ok arr)
          (Loader.frames_between info start end_) loaded ->
  let clip :=
    channel_concat (Loader._resize_height self) (Loader._resize_width self) loaded in
  Loader.get_video_clips self video start end_ = (Ok clip, self) /\
  has_shape (Loader._resize_height self) (Loader._resize_width self)
            (3 * Z.to_nat (end_ - start)) clip.
Proof.
  intros Hget Hlen Hse Hend Hload clip.
  assert (Hn : List.length (Loader.frames_between info start end_)
               = Z.to_nat (end_ - start))
    by (apply frames_between_length; lia).
  assert (Hne : Loader.frames_between info start end_ <> []).
  { intros Hnil. rewrite Hnil in Hn. simpl in Hn. lia. }
  destruct (concatenate_loaded _ _ Hload Hne) as [Hcat Hshape].
  split.
  - rewrite (@get_video_clips_found self video info start end_ Hget).
    rewrite load_range_slice by lia.
    apply for_append_Forall2 in Hload. rewrite Hload. simpl.
    now rewrite Hcat.
  - now rewrite <- Hn.
Qed.

Lemma Forall2_map_r_in X Y (R : X -> Y -> Prop) (g : X -> Y) (xs : list X) :
  (forall x, In x xs -> R x (g x)) -> Forall2 R xs (map g xs).
Proof.
  induction xs as [|x xs IH]; intros H; simpl; constructor.
  - apply H. now left.
  - apply IH. intros y Hy. apply H. now right.
Qed.

(** Any index in [-len, len) is read, at its normalised position. *)
Lemma list_getitem_norm (l : list string) (i : Z) :
  (- Z.of_nat (List.length l) <= i < Z.of_nat (List.length l))%Z ->
  list_getitem l i =
  Ok (nth (Z.to_nat (norm_index (Z.of_nat (List.length l)) i)) l EmptyString).
Proof.
  intros H. unfold norm_index. destruct (Z.ltb_spec i 0) as [Hneg|Hpos].
  - destruct (@list_getitem_negative _ l i ltac:(lia)) as (x & Hx & Hg).
    rewrite Hg. f_equal. symmetry. now apply nth_error_nth.
  - destruct (@list_getitem_nonneg _ l i ltac:(lia)) as (x & Hx & Hg).
    rewrite Hg. f_equal. symmetry. now apply nth_error_nth.
Qed.

(** C10.  [get_video_clips] checks nothing.  With [end <= start] it raises
    the [ValueError] of [np.concatenate] on an empty list, whatever the
    video name.  With [-length <= start < 0] it raises nothing of its own:
    each index [i] of the range reads the frame at [i + length] when
    negative, counting from the end of the video, and the frames read are
    joined as usual. *)
Theorem get_video_clips_unvalidated (self : Loader.DataLoader) (video : string) :
  (forall start end_ : Z,
      (end_ <= start)%Z ->
      Loader.get_video_clips self video start end_ = (Raise ValueError, self)) /\
  (forall (info : Loader.video_info) (start end_ : Z) (loaded : list imagef),
      dict_get (Loader.videos self) video = Some info ->
      let len := Z.of_nat (List.length (Loader.v_frame info)) in
      (- len <= start < 0)%Z ->
      (start < end_ <= len)%Z ->
      Forall2 (fun filename arr =>
                 Loader.np_load_frame filename
                   (Loader._resize_height self) (Loader._resize_width self) = Ok arr)
              (map (fun i => nth (Z.to_nat (norm_index len i))
                                 (Loader.v_frame info) EmptyString)
                   (range start end_))
              loaded ->
      Loader.get_video_clips self video start end_ =
      (Ok (channel_concat (Loader._resize_height self) (Loader._resize_width self)
             loaded), self)).
Proof.
  split.
  - intros start end_ Hle. unfold Loader.get_video_clips.
    now rewrite (range_empty Hle).
  - intros info start end_ loaded Hget len Hstart Hend Hload.
    rewrite (@get_video_clips_found self video info start end_ Hget).
    rewrite (@for_append_through _ _ _ _ _ _
               (map (fun i => nth (Z.to_nat (norm_index len i))
                                  (Loader.v_frame info) EmptyString)
                    (range start end_))).
    + assert (Hne : map (fun i => nth (Z.to_nat (norm_index len i))
                                      (Loader.v_frame info) EmptyString)
                        (range start end_) <> []).
      { rewrite (range_cons (start := start) (stop := end_)) by lia. discriminate. }
      destruct (concatenate_loaded _ _ Hload Hne) as [Hcat _].
      apply for_append_Forall2 in Hload. rewrite Hload. simpl.
      now rewrite Hcat.
    + apply Forall2_map_r_in. intros i Hi. apply in_range in Hi.
      apply list_getitem_norm. lia.
Qed.

(** X6.  Negative indexing reaches back [length] frames and no further:
    with [start < -length] and a range that is not empty, [get_video_clips]
    raises [IndexError] at the first index, before loading any frame. *)
Lemma get_video_clips_below_length
      (self : Loader.DataLoader) (video : string) (info : Loader.video_info)
      (start end_ : Z) :
  dict_get (Loader.videos self) video = Some info ->
  (start < - Z.of_nat (List.length (Loader.v_frame info)))%Z ->
  (start < end_)%Z ->
  Loader.get_video_clips self video start end_ = (Raise IndexError, self).
Proof.
  intros Hget Hlow Hlt.
  rewrite (@get_video_clips_found self video info start end_ Hget).
  rewrite (range_cons (start := start) (stop := end_)) by lia.
  simpl. unfold list_getitem at 1, norm_index.
  replace (start <? 0)%Z with true by lia.
  set (n := Z.of_nat (List.length (Loader.v_frame info))) in *.
  replace ((0 <=? start + n) && (start + n <? n))%Z with false by lia.
  reflexivity.
Qed.

End GetVideoClips.

Lemma get_video_clips_unvalidated_witness :
  Loader.get_video_clips (E := Demo.world) Demo.loader "01" 3 3
  = (Raise ValueError, Demo.loader) /\
  Loader.get_video_clips (E := Demo.world) Demo.loader "nowhere" 3 2
  = (Raise ValueError, Demo.loader) /\
  Loader.get_video_clips (E := Demo.world) Demo.loader "01" (-2) 1
  = (Ok (channel_concat 2 2
           [Demo.loaded 40 215; Demo.loaded 50 205; Demo.loaded 0 255]),
     Demo.loader).
Proof.
  split; [|split].
  - apply (proj1 (get_video_clips_unvalidated (ES := demo_spec) Demo.loader "01")).
    lia.
  - apply (proj1 (get_video_clips_unvalidated (ES := demo_spec) Demo.loader "nowhere")).
    lia.
  - apply (proj2 (get_video_clips_unvalidated (ES := demo_spec) Demo.loader "01")
             Demo.video01 (-2)%Z 1%Z).
    + reflexivity.
    + simpl. lia.
    + simpl. lia.
    + repeat constructor.
Defined.

(* ===================================================================== *)
(** * The clip generator *)
(* ===================================================================== *)

Section Generator.
Context {E : Extern} {ES : ExternSpec E}.

Lemma for_append_ok_in X Y (f : X -> result Y) (xs : list X) (ys : list Y) (x : X) :
  for_append f xs = Ok ys -> In x xs -> exists y, f x = Ok y.
Proof.
  revert ys; induction xs as [|x0 xs IH]; intros ys H Hin; [contradiction|].
  simpl in H. apply bind_ok_inv in H as (y0 & Hy0 & H).
  apply bind_ok_inv in H as (ys' & Hys' & _).
  destruct Hin as [<-|Hin]; [eauto | eapply IH; eauto].
Qed.

Lemma mod_ok (a b v : Z) :
  mod_ a b = Ok v -> (0 < b -> 0 <= v < b)%Z /\ v = (a mod b)%Z /\ b <> 0%Z.
Proof.
  unfold mod_. destruct (Z.eqb_spec b 0) as [->|Hb]; [discriminate|].
  intros [= <-]. repeat split; [apply Z.mod_pos_bound | apply Z.mod_pos_bound | exact Hb];
    assumption.
Qed.

Lemma randint_ok (low high : Z) (d : list Z) :
  randint low high = Ok d -> (low < high)%Z /\ d = range low high.
Proof.
  unfold randint. destruct (Z.ltb_spec low high); [|discriminate].
  intros [= <-]. split; [assumption | reflexivity].
Qed.

(** A clip built at a non-negative [start] is made of the [clip_length]
    frames from [start] on. *)
Lemma video_clip_at_ok (ds : Loader.dataset) (info : Loader.video_info)
      (start : Z) (clip : imagef) :
  (0 <= start)%Z ->
  Loader.video_clip_at ds info start = Ok clip ->
  (0 < Loader.clip_length ds)%Z /\
  (start + Loader.clip_length ds <= Z.of_nat (List.length (Loader.v_frame info)))%Z /\
  exists loaded,
    Forall2 (fun filename arr =>
               Loader.np_load_frame filename
                 (Loader.resize_height ds) (Loader.resize_width ds) = Ok arr)
            (Loader.frames_between info start (start + Loader.clip_length ds))
            loaded /\
    clip = channel_concat (Loader.resize_height ds) (Loader.resize_width ds) loaded /\
    has_shape (Loader.resize_height ds) (Loader.resize_width ds)
              (3 * Z.to_nat (Loader.clip_length ds)) clip.
Proof.
  intros H0 H. unfold Loader.video_clip_at in H.
  apply bind_ok_inv in H as (loaded & Hloop & Hcat).
  set (c := Loader.clip_length ds) in *.
  assert (Hc : (0 < c)%Z).
  { destruct (Z.lt_ge_cases 0 c) as [Hc|Hc]; [exact Hc|].
    rewrite range_empty in Hloop by lia. simpl in Hloop.
    injection Hloop as <-. discriminate. }
  assert (Hlast : (start + c <= Z.of_nat (List.length (Loader.v_frame info)))%Z).
  { destruct (@for_append_ok_in _ _ _ _ _ (start + c - 1)%Z Hloop) as (arr & Harr).
    - apply in_range. lia.
    - apply bind_ok_inv in Harr as (filename & Hget & _).
      apply list_getitem_ok_nonneg in Hget; lia. }
  split; [exact Hc|]. split; [exact Hlast|].
  rewrite load_range_slice in Hloop by lia.
  apply for_append_Forall2 in Hloop.
  assert (Hne : Loader.frames_between info start (start + c) <> []).
  { intros Hnil.
    pose proof (@frames_between_length info start (start + c) H0 Hlast) as Hn.
    rewrite Hnil in Hn. simpl in Hn. lia. }
  destruct (concatenate_loaded _ _ Hloop Hne) as [Hcat' Hshape].
  exists loaded. split; [exact Hloop|].
  rewrite Hcat' in Hcat. injection Hcat as <-.
  split; [reflexivity|].
  rewrite (@frames_between_length info start (start + c) H0 Hlast) in Hshape.
  replace (start + c - start)%Z with c in Hshape by lia. exact Hshape.
Qed.

(** C5.  Every clip the generator yields comes from one video, the one at
    the next position of the round, and is made of [clip_length] consecutive
    frames of it, from some [start] on and in that order, joined along the
    channel axis; its shape is [resize_height, resize_width,
    clip_length * 3], the shape declared to the dataset, with
    [clip_length = time_steps + num_pred]. *)
Theorem generator_yields_consecutive_frames
        (self : Loader.DataLoader) (batch_size time_steps num_pred : Z)
        (v_id v_id' : Z) (outcomes : list (result (Z * imagef))) (clip : imagef) :
  let ds := fst (Loader.__call__ self batch_size time_steps num_pred) in
  let clip_length := (time_steps + num_pred)%Z in
  Loader.video_clip_generator ds v_id = Ok outcomes ->
  In (Ok (v_id', clip)) outcomes ->
  v_id' = ((v_id + 1) mod Z.of_nat (List.length (dict_values (Loader.videos self))))%Z /\
  Loader.consecutive_clip self clip_length v_id' clip /\
  Loader.output_shapes ds
  = (Loader._resize_height self, Loader._resize_width self, (clip_length * 3)%Z).
Proof.
  intros ds clip_length Hgen Hin.
  unfold Loader.video_clip_generator in Hgen.
  apply bind_ok_inv in Hgen as (v & Hv & Hgen).
  apply bind_ok_inv in Hgen as (info & Hinfo & Hgen).
  apply bind_ok_inv in Hgen as (starts & Hstarts & Hgen).
  injection Hgen as <-.
  apply in_map_iff in Hin as (start & Hclip & Hstart).
  apply bind_ok_inv in Hclip as (clip' & Hat & Hclip).
  injection Hclip as <- <-.
  apply randint_ok in Hstarts as [_ ->]. apply in_range in Hstart.
  apply mod_ok in Hv as (Hvb & Hveq & Hn).
  apply list_getitem_ok_nonneg in Hinfo; [|apply Hvb; simpl in *; lia].
  destruct Hinfo as [Hnth _].
  apply video_clip_at_ok in Hat; [|lia].
  destruct Hat as (Hc & Hlast & loaded & Hload & Hclip & Hshape).
  split; [exact Hveq|]. split; [|reflexivity].
  exists info, start, loaded.
  split; [exact Hnth|].
  split; [lia|]. split; [exact Hc|]. split; [exact Hlast|].
  split; [exact Hload|]. split; [exact Hclip|].
  replace (Z.to_nat (clip_length * 3)) with (3 * Z.to_nat clip_length)%nat by lia.
  exact Hshape.
Qed.

End Generator.

Lemma generator_yields_consecutive_frames_witness :
  let clip := channel_concat 2 2
                [Demo.loaded 0 255; Demo.loaded 10 245; Demo.loaded 20 235;
                 Demo.loaded 30 225; Demo.loaded 40 215] in
  0%Z = ((Loader.v_id_init + 1)
         mod Z.of_nat (List.length (dict_values (Loader.videos Demo.loader))))%Z /\
  Loader.consecutive_clip (E := Demo.world) Demo.loader (4 + 1) 0 clip /\
  Loader.output_shapes (fst (Loader.__call__ Demo.loader 4 4 1))
  = (2%nat, 2%nat, ((4 + 1) * 3)%Z).
Proof.
  intros clip.
  apply (@generator_yields_consecutive_frames Demo.world demo_spec
           Demo.loader 4 4 1 Loader.v_id_init 0 [Ok (0%Z, clip)] clip).
  - reflexivity.
  - left. reflexivity.
Defined.

(* ===================================================================== *)
(** * The start of a clip *)
(* ===================================================================== *)

Section ClipStart.

Lemma range_NoDup (start stop : Z) : NoDup (range start stop).
Proof.
  unfold range. apply Finite.Injective_map_NoDup; [|apply seq_NoDup].
  intros x y H. lia.
Qed.

Lemma count_occ_range (start stop x : Z) :
  count_occ Z.eq_dec (range start stop) x
  = if ((start <=? x) && (x <? stop))%Z then 1%nat else 0%nat.
Proof.
  destruct ((start <=? x) && (x <? stop))%Z eqn:Hb.
  - apply NoDup_count_occ'; [apply range_NoDup | apply in_range; lia].
  - apply count_occ_not_In. rewrite in_range. lia.
Qed.

(** What the generator draws from: when the video is longer than the clip,
    the [length - clip_length] starts [0 .. length - clip_length - 1], each
    once; the start [length - clip_length] is not among them. *)
Lemma video_clip_start_support (length clip_length : Z) :
  (clip_length < length)%Z ->
  exists starts,
    Loader.video_clip_start length clip_length = Ok starts /\
    NoDup starts /\
    List.length starts = Z.to_nat (length - clip_length) /\
    (forall s, In s starts <-> (0 <= s < length - clip_length)%Z) /\
    (forall s, (0 <= s < length - clip_length)%Z ->
               prob starts s == 1 # Z.to_pos (length - clip_length)) /\
    prob starts (length - clip_length) == 0.
Proof.
  intros H. exists (range 0 (length - clip_length)).
  unfold Loader.video_clip_start, randint.
  replace (0 <? length - clip_length)%Z with true by lia.
  split; [reflexivity|]. split; [apply range_NoDup|].
  split; [rewrite range_length; f_equal; lia|].
  split; [intros s; apply in_range|].
  split.
  - intros s Hs. unfold prob. rewrite count_occ_range, range_length.
    replace ((0 <=? s) && (s <? length - clip_length))%Z with true by lia.
    replace (length - clip_length - 0)%Z with (length - clip_length)%Z by lia.
    unfold Qeq. simpl. f_equal. lia.
  - unfold prob. rewrite count_occ_range.
    replace ((0 <=? length - clip_length) && (length - clip_length <? length - clip_length))%Z
      with false by lia.
    reflexivity.
Qed.

(** C1, on the code.  In the demo world the video [01] has 6 frames; with
    [time_steps = 4] and [num_pred = 1] a clip has 5 frames, so two windows
    fit, starting at frames 0 and 1.  The generator draws the start from the
    single value 0 and its first turn has one outcome; the window starting
    at [length - clip_length = 1] has probability 0, although the loop of
    the generator builds it when given that start.  A video of exactly
    [clip_length] frames has one window that fits, and the draw raises
    [ValueError]. *)
Theorem video_clip_start_misses_last_window :
  let ds := fst (Loader.__call__ Demo.loader 4 4 1) in
  Loader.video_clip_start 6 5 = Ok [0%Z] /\
  prob [0%Z] 0 == 1 /\
  prob [0%Z] (6 - 5) == 0 /\
  Loader.video_clip_generator (E := Demo.world) ds Loader.v_id_init
  = Ok [Ok (0%Z, channel_concat 2 2
                   [Demo.loaded 0 255; Demo.loaded 10 245; Demo.loaded 20 235;
                    Demo.loaded 30 225; Demo.loaded 40 215])] /\
  Loader.video_clip_at (E := Demo.world) ds Demo.video01 (6 - 5)
  = Ok (channel_concat 2 2
          [Demo.loaded 10 245; Demo.loaded 20 235; Demo.loaded 30 225;
           Demo.loaded 40 215; Demo.loaded 50 205]) /\
  Loader.video_clip_start 5 5 = Raise ValueError.
Proof. repeat split. Qed.

End ClipStart.

(* ===================================================================== *)
(** * [__getitem__] and [setup] *)
(* ===================================================================== *)

Section LoaderState.
Context {E : Extern}.

(** C8.  [__getitem__] raises [AssertionError] exactly when the name is
    not a key of [self.videos]; for a key it returns the record stored
    under it; in both cases the loader is left as it was. *)
Theorem getitem_asserts_key (self : Loader.DataLoader) (video_name : string) :
  (fst (Loader.__getitem__ self video_name) = Raise AssertionError
   <-> ~ In video_name (dict_keys (Loader.videos self))) /\
  (In video_name (dict_keys (Loader.videos self)) ->
   exists info,
     dict_get (Loader.videos self) video_name = Some info /\
     In (video_name, info) (Loader.videos self) /\
     Loader.__getitem__ self video_name = (Ok info, self)) /\
  snd (Loader.__getitem__ self video_name) = self.
Proof.
  unfold Loader.__getitem__.
  destruct (existsb (String.eqb video_name) (dict_keys (Loader.videos self))) eqn:Hex.
  - apply existsb_eqb_In in Hex. pose proof Hex as Hkey.
    apply dict_get_keys in Hkey.
    destruct (dict_get (Loader.videos self) video_name) as [info|] eqn:Hget;
      [|contradiction].
    rewrite (dict_getitem_found _ _ Hget). simpl.
    split; [split; [discriminate | contradiction]|].
    split; [|reflexivity].
    intros _. exists info. split; [reflexivity|]. split; [|reflexivity].
    now apply dict_get_In.
  - assert (Hnot : ~ In video_name (dict_keys (Loader.videos self))).
    { intros Hin. apply existsb_eqb_In in Hin. congruence. }
    simpl. split; [split; [intros _; exact Hnot | reflexivity]|].
    split; [contradiction | reflexivity].
Qed.

End LoaderState.

Section Setup.
Context {E : Extern}.

Lemma string_compare_le_trans (a b c : string) :
  String.compare a b <> Gt -> String.compare b c <> Gt -> String.compare a c <> Gt.
Proof.
  revert b c; induction a as [|x a IH]; intros [|y b] [|z c]; simpl;
    try congruence.
  unfold Ascii.compare.
  remember (N_of_ascii x) as nx. remember (N_of_ascii y) as ny.
  remember (N_of_ascii z) as nz.
  destruct (N.compare_spec nx ny), (N.compare_spec ny nz), (N.compare_spec nx nz);
    try congruence; try lia.
  apply IH.
Qed.

Lemma string_le_trans (a b c : string) :
  Loader.string_le a b -> Loader.string_le b c -> Loader.string_le a c.
Proof.
  unfold Loader.string_le, String.leb. intros Hab Hbc.
  pose proof (@string_compare_le_trans a b c) as H.
  destruct (String.compare a b); destruct (String.compare b c);
    destruct (String.compare a c); try discriminate; try reflexivity;
    exfalso; apply H; congruence.
Qed.

(** [sorted] gives an ascending list with the same elements. *)
Lemma sorted_ascending (l : list string) :
  StronglySorted Loader.string_le (sorted l).
Proof.
  apply Sorted_StronglySorted.
  - intros a b c. apply string_le_trans.
  - pose proof (StringSort.Sorted_sort l) as H.
    unfold sorted. induction H as [|x l' Hs IH Hhd]; constructor.
    + exact IH.
    + destruct Hhd; constructor. assumption.
Qed.

Lemma sorted_permutation (l : list string) : Permutation (sorted l) l.
Proof. symmetry. apply StringSort.Permuted_sort. Qed.

Lemma dict_set_Forall V (P : string * V -> Prop) (d : dict V) (k : string) (v : V) :
  Forall P d -> P (k, v) -> Forall P (dict_set d k v).
Proof.
  intros Hd Hkv. apply Forall_forall. intros [k0 v0] Hin.
  destruct (@dict_set_In _ _ _ _ _ _ Hin) as [->|Hold]; [exact Hkv|].
  rewrite Forall_forall in Hd. now apply Hd.
Qed.

Lemma setup_video_invariant (self : Loader.DataLoader) (video : string) :
  Loader.videos_invariant self ->
  Loader.videos_invariant (Loader.setup_video self video).
Proof.
  intros Hinv. unfold Loader.videos_invariant, Loader.setup_video. simpl.
  apply dict_set_Forall; [exact Hinv|]. simpl.
  split; [reflexivity|]. split; [apply sorted_ascending | apply sorted_permutation].
Qed.

Lemma setup_invariant (self : Loader.DataLoader) :
  Loader.videos_invariant self -> Loader.videos_invariant (Loader.setup self).
Proof.
  unfold Loader.setup.
  generalize (sorted (glob (os_path_join (Loader.dir self) "*"))). intros vs.
  revert self. induction vs as [|video vs IH]; intros self Hinv; simpl.
  - exact Hinv.
  - apply IH. now apply setup_video_invariant.
Qed.

(** C9.  In the loader that [__init__] builds by running [setup], every
    entry of [self.videos] has ['length'] equal to the number of its frames,
    its frames in ascending lexicographic order, and exactly the [*.jpg]
    paths that [glob] finds under its path.  [__getitem__],
    [get_video_clips] and [__call__] leave the loader they are given as it
    is, so they keep the invariant. *)
Theorem setup_establishes_invariant
        (video_folder : string) (resize_height resize_width : nat) :
  Loader.videos_invariant (Loader.__init__ video_folder resize_height resize_width) /\
  (forall (self : Loader.DataLoader),
      (forall video_name, snd (Loader.__getitem__ self video_name) = self) /\
      (forall video start end_,
          snd (Loader.get_video_clips self video start end_) = self) /\
      (forall batch_size time_steps num_pred,
          snd (Loader.__call__ self batch_size time_steps num_pred) = self)).
Proof.
  split.
  - unfold Loader.__init__. apply setup_invariant. constructor.
  - intros self. split; [|split].
    + intros video_name. unfold Loader.__getitem__.
      now destruct (existsb _ _).
    + reflexivity.
    + reflexivity.
Qed.

End Setup.

Section ClipsOfLoader.
Context {E : Extern} {ES : ExternSpec E}.

Lemma setup_sizes (self : Loader.DataLoader) :
  Loader._resize_height (Loader.setup self) = Loader._resize_height self /\
  Loader._resize_width (Loader.setup self) = Loader._resize_width self.
Proof.
  unfold Loader.setup.
  generalize (sorted (glob (os_path_join (Loader.dir self) "*"))). intros vs.
  revert self. induction vs as [|video vs IH]; intros self; simpl.
  - split; reflexivity.
  - destruct (IH (Loader.setup_video self video)) as [-> ->]. split; reflexivity.
Qed.

(** C6.  In a loader as [__init__] builds it, for a video name present and
    [0 <= start < end <= length] of that video, [get_video_clips] returns
    the frames at indices [start .. end - 1], each as [np_load_frame]
    returns it, joined along the channel axis; the result has shape
    [resize_height, resize_width, 3 * (end - start)]. *)
Theorem get_video_clips_concatenates
        (video_folder : string) (resize_height resize_width : nat)
        (video : string) (info : Loader.video_info)
        (start end_ : Z) (loaded : list imagef) :
  let self := Loader.__init__ video_folder resize_height resize_width in
  dict_get (Loader.videos self) video = Some info ->
  (0 <= start < end_)%Z ->
  (end_ <= Loader.v_length info)%Z ->
  Forall2 (fun filename arr =>
             Loader.np_load_frame filename resize_height resize_width = Ok arr)
          (Loader.frames_between info start end_) loaded ->
  let clip := channel_concat resize_height resize_width loaded in
  Loader.get_video_clips self video start end_ = (Ok clip, self) /\
  has_shape resize_height resize_width (3 * Z.to_nat (end_ - start)) clip.
Proof.
  intros self Hget Hse Hend Hload clip.
  assert (Hinv : Loader.videos_invariant self).
  { unfold self, Loader.__init__. apply setup_invariant. constructor. }
  assert (Hlen : Loader.v_length info
                 = Z.of_nat (List.length (Loader.v_frame info))).
  { unfold Loader.videos_invariant in Hinv. rewrite Forall_forall in Hinv.
    exact (proj1 (Hinv _ (dict_get_In _ _ Hget))). }
  assert (Hh : Loader._resize_height self = resize_height)
    by (unfold self, Loader.__init__; now rewrite (proj1 (setup_sizes _))).
  assert (Hw : Loader._resize_width self = resize_width)
    by (unfold self, Loader.__init__; now rewrite (proj2 (setup_sizes _))).
  pose proof (@get_video_clips_in_range _ _ self video info start end_ loaded
                Hget Hlen Hse Hend) as H.
  rewrite Hh, Hw in H. exact (H Hload).
Qed.

End ClipsOfLoader.

Lemma get_video_clips_concatenates_witness :
  let clip := channel_concat 2 2 [Demo.loaded 10 245; Demo.loaded 20 235] in
  Loader.get_video_clips (E := Demo.world) Demo.loader "01" 1 3
  = (Ok clip, Demo.loader) /\
  has_shape 2 2 (3 * Z.to_nat (3 - 1)) clip.
Proof.
  apply (@get_video_clips_concatenates Demo.world demo_spec "frames" 2 2 "01"
           Demo.video01 1 3).
  - reflexivity.
  - lia.
  - simpl. lia.
  - repeat constructor.
Defined.

(* ===================================================================== *)
(** * The metrics compute their formulas *)
(* ===================================================================== *)

Section MetricsFacts.
Import Metrics.
Local Open Scope R_scope.

Lemma sum_upto_ext (n : nat) (f g : nat -> R) :
  (forall i, (i < n)%nat -> f i = g i) -> sum_upto n f = sum_upto n g.
Proof.
  induction n as [|n IH]; intros H; simpl; [reflexivity|].
  rewrite IH by (intros i Hi; apply H; lia).
  now rewrite (H n) by lia.
Qed.

Lemma sum_box_ext (h w c : nat) (f g : nat -> nat -> nat -> R) :
  (forall i j k, (i < h)%nat -> (j < w)%nat -> (k < c)%nat -> f i j k = g i j k) ->
  sum_box h w c f = sum_box h w c g.
Proof.
  intros H. unfold sum_box.
  apply sum_upto_ext. intros i Hi.
  apply sum_upto_ext. intros j Hj.
  apply sum_upto_ext. intros k Hk. now apply H.
Qed.

Lemma bidx_lt (d i : nat) : (i < d)%nat -> bidx d i = i.
Proof.
  intros H. unfold bidx. destruct (Nat.eqb_spec d 1); [lia | reflexivity].
Qed.

Lemma bdim_same (d : nat) : bdim d d = Some d.
Proof. unfold bdim. now rewrite Nat.eqb_refl. Qed.

(** On equal shapes a binary operation raises nothing and keeps the shape. *)
Lemma zip4_same_shape (op : R -> R -> R) (x y : tensor4) (b h w c : nat) :
  shape4 x = (b, h, w, c) -> shape4 y = (b, h, w, c) ->
  zip4 op x y =
  Ok {| shape4 := (b, h, w, c);
        at4 := fun n i j k =>
                 op (at4 x (bidx b n) (bidx h i) (bidx w j) (bidx c k))
                    (at4 y (bidx b n) (bidx h i) (bidx w j) (bidx c k)) |}.
Proof.
  intros Hx Hy. unfold zip4. rewrite Hx, Hy.
  now rewrite !bdim_same.
Qed.

Lemma int32_small (z : Z) : (0 <= z < 2 ^ 31)%Z -> int32 z = z.
Proof.
  intros H. unfold int32. rewrite Z.mod_small; lia.
Qed.

(** Below [2^31] the product of the three sizes does not wrap. *)
Lemma num_pixels_of_shape (t : tensor4) (b h w c : nat) :
  shape4 t = (b, h, w, c) ->
  (Z.of_nat (h * w * c) < 2 ^ 31)%Z ->
  num_pixels_of t = INR (h * w * c).
Proof.
  intros Hs Hlt. unfold num_pixels_of, int32_mul. rewrite Hs.
  rewrite INR_IZR_INZ. f_equal.
  destruct c as [|c].
  - rewrite Z.mul_0_r, Nat.mul_0_r. reflexivity.
  - rewrite (int32_small (z := Z.of_nat h * Z.of_nat w)) by nia.
    rewrite int32_small by nia. lia.
Qed.

(** C2.  For [gen_frames] and [gt_frames] of one shape
    [batch_size, height, width, channels], with fewer than [2^31] entries
    per frame, [psnr_error] returns the mean over the batch of
    [10 * log10 (1 / MSE)], where the MSE of a frame is the mean over
    height, width and channels of the squared differences of the two frames
    rescaled by [(x + 1) / 2], which takes [-1, 1] to [0, 1]. *)
Theorem psnr_error_is_formula (gen_frames gt_frames : tensor4) (b h w c : nat) :
  shape4 gen_frames = (b, h, w, c) ->
  shape4 gt_frames = (b, h, w, c) ->
  (Z.of_nat (h * w * c) < 2 ^ 31)%Z ->
  psnr_error gen_frames gt_frames = Ok (psnr_formula b h w c gen_frames gt_frames) /\
  (forall x, -1 <= x <= 1 -> 0 <= rescale01 x <= 1).
Proof.
  intros Hgen Hgt Hsize. split; [|intros x Hx; unfold rescale01; lra].
  unfold psnr_error.
  rewrite (@num_pixels_of_shape gen_frames b h w c Hgen Hsize).
  rewrite (@zip4_same_shape Rminus _ _ b h w c) by assumption.
  simpl. f_equal.
  unfold reduce_mean, psnr_formula, batch_mean. simpl. f_equal.
  apply sum_upto_ext. intros n Hn.
  unfold log10r, mse, mean_box. f_equal. f_equal. f_equal. f_equal.
  transitivity
    (sum_box h w c (fun i j k =>
       Rsqr (rescale01 (at4 gt_frames n i j k) - rescale01 (at4 gen_frames n i j k)))
     * / INR (h * w * c)).
  - unfold Rdiv. rewrite Rmult_1_l, Rmult_comm. f_equal.
    apply sum_box_ext. intros i j k Hi Hj Hk.
    now rewrite !bidx_lt by assumption.
  - reflexivity.
Qed.

(** A sum against a column of the identity matrix picks one term. *)
Lemma sum_delta (c k : nat) (f : nat -> R) :
  sum_upto c (fun q => f q * (if (q =? k)%nat then 1 else 0))
  = if (k <? c)%nat then f k else 0.
Proof.
  induction c as [|c IH]; simpl sum_upto; [reflexivity|].
  rewrite IH.
  destruct (Nat.ltb_spec k c), (Nat.eqb_spec c k), (Nat.ltb_spec k (S c));
    try lia; subst; ring.
Qed.

Lemma sum_delta_neg (c k : nat) (f : nat -> R) :
  sum_upto c (fun q => f q * (-1 * (if (q =? k)%nat then 1 else 0)))
  = if (k <? c)%nat then - f k else 0.
Proof.
  rewrite <- (sum_delta c k (fun q => - f q)).
  apply sum_upto_ext. intros q _. ring.
Qed.

(** Without padding on top or on the left, reading the padded input is
    reading the entry, or zero past the last row or column. *)
Lemma padded_entry (t : tensor4) (b h w c n y x q : nat) :
  shape4 t = (b, h, w, c) ->
  padded t n y 0 x 0 q = entry h w t n y x q.
Proof.
  intros Hs. unfold padded, entry. rewrite Hs.
  rewrite !Nat.sub_0_r. simpl. now rewrite andb_true_r.
Qed.

(** Convolution with [filter_x] is the horizontal gradient. *)
Lemma conv2d_filter_x (t : tensor4) (b h w c : nat) :
  shape4 t = (b, h, w, c) ->
  exists T,
    conv2d_same t (filter_x c) = Ok T /\
    shape4 T = (b, h, w, c) /\
    forall n i j k, (k < c)%nat -> at4 T n i j k = grad_x h w t n i j k.
Proof.
  intros Hs. unfold conv2d_same. rewrite Hs. simpl.
  rewrite Nat.eqb_refl. eexists. split; [reflexivity|]. split; [reflexivity|].
  intros n i j k Hk. simpl.
  rewrite sum_delta_neg, sum_delta.
  replace (k <? c)%nat with true by (symmetry; apply Nat.ltb_lt; exact Hk).
  rewrite !(@padded_entry t b h w c) by exact Hs.
  rewrite !Nat.add_0_r. unfold grad_x. ring.
Qed.

(** Convolution with [filter_y] is the vertical gradient. *)
Lemma conv2d_filter_y (t : tensor4) (b h w c : nat) :
  shape4 t = (b, h, w, c) ->
  exists T,
    conv2d_same t (filter_y c) = Ok T /\
    shape4 T = (b, h, w, c) /\
    forall n i j k, (k < c)%nat -> at4 T n i j k = grad_y h w t n i j k.
Proof.
  intros Hs. unfold conv2d_same. rewrite Hs. simpl.
  rewrite Nat.eqb_refl. eexists. split; [reflexivity|]. split; [reflexivity|].
  intros n i j k Hk. simpl.
  rewrite sum_delta_neg, sum_delta.
  replace (k <? c)%nat with true by (symmetry; apply Nat.ltb_lt; exact Hk).
  rewrite !(@padded_entry t b h w c) by exact Hs.
  rewrite !Nat.add_0_r. unfold grad_y. ring.
Qed.

(** C3.  For [gen_frames] and [gt_frames] of one shape
    [batch_size, height, width, channels], with fewer than [2^31] entries
    per frame, [sharp_diff_error] returns the mean over the batch of
    [10 * log10 (num_pixels / sum)], where [num_pixels = height * width *
    channels] and [sum] adds, over the frame, the absolute difference
    between the gradient sums of the two frames; the gradient sum at an
    entry is the absolute horizontal difference (filter [-1, 1]) plus the
    absolute vertical difference (filter [[1], [-1]]), with zeros past the
    last column and row. *)
Theorem sharp_diff_error_is_formula (gen_frames gt_frames : tensor4) (b h w c : nat) :
  shape4 gen_frames = (b, h, w, c) ->
  shape4 gt_frames = (b, h, w, c) ->
  (Z.of_nat (h * w * c) < 2 ^ 31)%Z ->
  sharp_diff_error gen_frames gt_frames c
  = Ok (sharp_diff_formula b h w c gen_frames gt_frames).
Proof.
  intros Hgen Hgt Hsize. unfold sharp_diff_error.
  rewrite (@num_pixels_of_shape gen_frames b h w c Hgen Hsize).
  destruct (@conv2d_filter_x gen_frames b h w c Hgen) as (gen_dx & -> & Sgen_dx & Egen_dx).
  destruct (@conv2d_filter_y gen_frames b h w c Hgen) as (gen_dy & -> & Sgen_dy & Egen_dy).
  destruct (@conv2d_filter_x gt_frames b h w c Hgt) as (gt_dx & -> & Sgt_dx & Egt_dx).
  destruct (@conv2d_filter_y gt_frames b h w c Hgt) as (gt_dy & -> & Sgt_dy & Egt_dy).
  cbn [bind].
  rewrite (@zip4_same_shape Rplus (map4 Rabs gen_dx) (map4 Rabs gen_dy) b h w c)
    by assumption.
  cbn [bind].
  rewrite (@zip4_same_shape Rplus (map4 Rabs gt_dx) (map4 Rabs gt_dy) b h w c)
    by assumption.
  cbn [bind].
  rewrite (@zip4_same_shape Rminus _ _ b h w c) by reflexivity.
  cbn [bind]. f_equal.
  unfold reduce_mean, sharp_diff_formula, batch_mean. simpl. f_equal.
  apply sum_upto_ext. intros n Hn.
  unfold log10r. f_equal. f_equal. f_equal.
  unfold Rdiv. rewrite !Rmult_1_l, Rinv_mult, Rinv_inv. f_equal. f_equal.
  apply sum_box_ext. intros i j k Hi Hj Hk.
  repeat match goal with
         | |- context [bidx ?d ?x] => rewrite (@bidx_lt d x) by assumption
         end.
  rewrite Egen_dx, Egen_dy, Egt_dx, Egt_dy by assumption.
  reflexivity.
Qed.

End MetricsFacts.

Lemma psnr_error_is_formula_witness :
  Metrics.psnr_error Demo.gen_frames Demo.gt_frames
  = Ok (Metrics.psnr_formula 2 2 2 3 Demo.gen_frames Demo.gt_frames) /\
  (forall x, (-1 <= x <= 1)%R -> (0 <= Metrics.rescale01 x <= 1)%R).
Proof.
  apply (@psnr_error_is_formula Demo.gen_frames Demo.gt_frames 2 2 2 3).
  - reflexivity.
  - reflexivity.
  - reflexivity.
Defined.

Lemma sharp_diff_error_is_formula_witness :
  Metrics.sharp_diff_error Demo.gen_frames Demo.gt_frames 3
  = Ok (Metrics.sharp_diff_formula 2 2 2 3 Demo.gen_frames Demo.gt_frames).
Proof.
  apply (@sharp_diff_error_is_formula Demo.gen_frames Demo.gt_frames 2 2 2 3).
  - reflexivity.
  - reflexivity.
  - reflexivity.
Defined.

(* ===================================================================== *)
(** * [save] *)
(* ===================================================================== *)

Section Save.
Variables saver session : Type.
Import Ckpt.

(** Joining a directory name that is not empty and has no trailing slash
    with a file name puts one slash between them. *)
Lemma os_path_join_plain (a b : string) :
  a <> EmptyString -> ends_with_slash a = false -> starts_with_slash b = false ->
  os_path_join a b = (a ++ "/" ++ b)%string.
Proof.
  intros Ha Hs Hb. unfold os_path_join. rewrite Hb, Hs.
  destruct (String.eqb_spec a EmptyString); [contradiction | reflexivity].
Qed.

(** All the calls of a run of [save], and how it ends: an exception of
    [os.makedirs] or [saver.save] ends the run where it is raised. *)
Lemma save_trace (s : saver) (sess : session) (logdir : string) (step : Z) (e : env) :
  let checkpoint_path := os_path_join logdir "model.ckpt" in
  save s sess logdir step e =
  if exists_ e logdir then
    if save_raises e checkpoint_path step
    then ([os_path_exists _ _ logdir; saver_save s sess checkpoint_path step],
          Raise OSError)
    else ([os_path_exists _ _ logdir; saver_save s sess checkpoint_path step;
           print _ _ "The checkpoint has been created."], Ok tt)
  else if makedirs_raises e logdir
  then ([os_path_exists _ _ logdir; os_makedirs _ _ logdir], Raise OSError)
  else if save_raises e checkpoint_path step
  then ([os_path_exists _ _ logdir; os_makedirs _ _ logdir;
         saver_save s sess checkpoint_path step], Raise OSError)
  else ([os_path_exists _ _ logdir; os_makedirs _ _ logdir;
         saver_save s sess checkpoint_path step;
         print _ _ "The checkpoint has been created."], Ok tt).
Proof.
  intros checkpoint_path. unfold save, io_bind, do_exists, do_makedirs, do_save,
    do_print, io_ret. fold checkpoint_path.
  destruct (exists_ e logdir); simpl.
  - destruct (save_raises e checkpoint_path step); reflexivity.
  - destruct (makedirs_raises e logdir); simpl; [reflexivity|].
    destruct (save_raises e checkpoint_path step); reflexivity.
Qed.

(** C7.  In surroundings where [os.makedirs], if called, does not raise,
    the calls of
    [save] that touch the file system are, in this order: the test
    [os.path.exists(logdir)]; [os.makedirs(logdir)] if and only if the test
    answered no; one [saver.save] with the session, the path
    [os.path.join(logdir, 'model.ckpt')] and [global_step = step].  For a
    [logdir] that is not empty and does not end with a slash the path is
    [logdir/model.ckpt].  An exception of [saver.save] is not handled. *)
Theorem save_single_framework_call
        (s : saver) (sess : session) (logdir : string) (step : Z) (e : env) :
  (exists_ e logdir = false -> makedirs_raises e logdir = false) ->
  let checkpoint_path := os_path_join logdir "model.ckpt" in
  let trace := fst (save s sess logdir step e) in
  filter (@is_fs_call saver session) trace
  = [os_path_exists _ _ logdir]
    ++ (if exists_ e logdir then [] else [os_makedirs _ _ logdir])
    ++ [saver_save s sess checkpoint_path step] /\
  List.length (filter (@is_saver_save saver session) trace) = 1%nat /\
  (In (os_makedirs _ _ logdir) trace <-> exists_ e logdir = false) /\
  (logdir <> EmptyString -> ends_with_slash logdir = false ->
   checkpoint_path = (logdir ++ "/model.ckpt")%string) /\
  snd (save s sess logdir step e)
  = if save_raises e checkpoint_path step then Raise OSError else Ok tt.
Proof.
  intros Hmk checkpoint_path trace. subst trace.
  pose proof (save_trace s sess logdir step e) as Ht. cbv zeta in Ht.
  fold checkpoint_path in Ht. rewrite Ht. clear Ht.
  destruct (exists_ e logdir) eqn:Hex; [|rewrite (Hmk eq_refl)].
  all: split; [|split; [|split; [|split]]].
  all: try (intros Hne Hslash; now apply os_path_join_plain).
  all: destruct (save_raises e checkpoint_path step); try reflexivity.
  all: simpl; split; try discriminate; try reflexivity;
    intros H; repeat (destruct H as [H|H]; try discriminate); try contradiction;
    auto.
Qed.

End Save.

Lemma save_single_framework_call_witness :
  let trace := fst (Ckpt.save tt tt "logs/run1" 7 Demo.surroundings) in
  filter (@Ckpt.is_fs_call unit unit) trace
  = [Ckpt.os_path_exists _ _ "logs/run1"]
    ++ [Ckpt.os_makedirs _ _ "logs/run1"]
    ++ [Ckpt.saver_save tt tt "logs/run1/model.ckpt" 7] /\
  List.length (filter (@Ckpt.is_saver_save unit unit) trace) = 1%nat /\
  (In (Ckpt.os_makedirs _ _ "logs/run1") trace <-> false = false) /\
  ("logs/run1"%string <> EmptyString -> ends_with_slash "logs/run1" = false ->
   "logs/run1/model.ckpt"%string = ("logs/run1" ++ "/model.ckpt")%string) /\
  snd (Ckpt.save tt tt "logs/run1" 7 Demo.surroundings) = Ok tt.
Proof.
  apply (@save_single_framework_call unit unit tt tt "logs/run1" 7 Demo.surroundings).
  intros _. reflexivity.
Defined.

(* ===================================================================== *)
(** * More on [setup]: what the dictionary holds *)
(* ===================================================================== *)

Section SetupContents.
Context {E : Extern}.

Lemma dict_set_fresh V (d : dict V) (k : string) (v : V) :
  ~ In k (dict_keys d) -> dict_set d k v = d ++ [(k, v)].
Proof.
  induction d as [|[k' v'] d IH]; simpl; intros Hk; [reflexivity|].
  destruct (String.eqb_spec k' k) as [->|Hne]; [tauto|].
  rewrite IH by tauto. reflexivity.
Qed.

Lemma dict_set_same V (d : dict V) (k : string) (v : V) :
  NoDup (dict_keys d) -> In (k, v) d -> dict_set d k v = d.
Proof.
  induction d as [|[k' v'] d IH]; simpl; intros Hnd Hin; [contradiction|].
  inversion Hnd as [|? ? Hk' Hnd']; subst.
  destruct (String.eqb_spec k' k) as [->|Hne].
  - destruct Hin as [[= ->]|Hin]; [reflexivity|].
    exfalso. apply Hk'. change k with (fst (k, v)). now apply in_map.
  - destruct Hin as [[= -> ->]|Hin]; [contradiction|].
    now rewrite IH.
Qed.

Lemma dict_set_keys V (d : dict V) (k k0 : string) (v : V) :
  In k0 (dict_keys (dict_set d k v)) <-> k0 = k \/ In k0 (dict_keys d).
Proof.
  induction d as [|[k' v'] d IH]; simpl.
  - split; [intros [H|[]]; left; now symmetry | intros [H|[]]; left; now symmetry].
  - destruct (String.eqb_spec k' k) as [->|Hne]; simpl.
    + split; [intros [H|H]; [left; now symmetry | right; now right] | ].
      intros [H|[H|H]]; [left; now symmetry | now left | now right].
    + rewrite IH. tauto.
Qed.

Lemma dict_set_NoDup V (d : dict V) (k : string) (v : V) :
  NoDup (dict_keys d) -> NoDup (dict_keys (dict_set d k v)).
Proof.
  induction d as [|[k' v'] d IH]; simpl; intros Hnd.
  - constructor; [tauto | constructor].
  - inversion Hnd as [|? ? Hk' Hnd']; subst.
    destruct (String.eqb_spec k' k) as [->|Hne]; simpl.
    + now constructor.
    + constructor; [|now apply IH].
      intros Hin. apply dict_set_keys in Hin as [Heq|Hin]; [congruence | tauto].
Qed.

Lemma dict_get_of_In V (d : dict V) (k : string) (v : V) :
  NoDup (dict_keys d) -> In (k, v) d -> dict_get d k = Some v.
Proof.
  induction d as [|[k' v'] d IH]; simpl; intros Hnd Hin; [contradiction|].
  inversion Hnd as [|? ? Hk' Hnd']; subst.
  destruct (String.eqb_spec k' k) as [->|Hne].
  - destruct Hin as [[= ->]|Hin]; [reflexivity|].
    exfalso. apply Hk'. change k with (fst (k, v)). now apply in_map.
  - destruct Hin as [[= -> ->]|Hin]; [contradiction | now apply IH].
Qed.

Lemma setup_video_entry (self : Loader.DataLoader) (video : string) :
  Loader.setup_video self video
  = Loader.with_videos self
      (dict_set (Loader.videos self) (fst (Loader.video_entry video))
                (snd (Loader.video_entry video))).
Proof. reflexivity. Qed.

(** Directories with fresh names are appended, in the order met. *)
Lemma fold_setup_video_fresh (vs : list string) (self : Loader.DataLoader) :
  NoDup (dict_keys (Loader.videos self) ++ map Loader.video_name_of vs) ->
  Loader.videos (fold_left Loader.setup_video vs self)
  = Loader.videos self ++ map Loader.video_entry vs.
Proof.
  revert self; induction vs as [|video vs IH]; intros self Hnd; simpl.
  - now rewrite app_nil_r.
  - rewrite IH.
    + rewrite setup_video_entry. simpl.
      rewrite dict_set_fresh.
      * now rewrite <- app_assoc.
      * intros Hin. apply NoDup_remove_2 in Hnd. apply Hnd.
        apply in_or_app. now left.
    + rewrite setup_video_entry. simpl.
      rewrite dict_set_fresh.
      * unfold dict_keys. rewrite map_app. simpl. rewrite <- app_assoc. exact Hnd.
      * intros Hin. apply NoDup_remove_2 in Hnd. apply Hnd.
        apply in_or_app. now left.
Qed.

(** X1.  When the directories that [glob] finds under the folder have
    pairwise different last path components, the loader holds one entry per
    directory, keyed by that component, in ascending order of the paths:
    this is the order in which [__call__] lists the videos and the
    generator visits them. *)
Theorem init_videos_in_sorted_order
        (video_folder : string) (resize_height resize_width : nat) :
  NoDup (map Loader.video_name_of (glob (os_path_join video_folder "*"))) ->
  Loader.videos (Loader.__init__ video_folder resize_height resize_width)
  = map Loader.video_entry (sorted (glob (os_path_join video_folder "*"))).
Proof.
  intros Hnd. unfold Loader.__init__, Loader.setup. simpl.
  rewrite fold_setup_video_fresh; [reflexivity|]. simpl.
  eapply Permutation_NoDup; [|exact Hnd].
  apply Permutation_map. apply StringSort.Permuted_sort.
Qed.

End SetupContents.

Lemma init_videos_in_sorted_order_witness :
  Loader.videos (Loader.__init__ (E := Demo.world) "frames" 2 2)
  = map (Loader.video_entry (E := Demo.world))
        (sorted (glob (Extern := Demo.world) (os_path_join "frames" "*"))).
Proof.
  apply (@init_videos_in_sorted_order Demo.world "frames" 2 2).
  repeat constructor; simpl; intuition discriminate.
Defined.

Section SetupLookup.
Context {E : Extern}.

Lemma setup_video_keyed (found : list string) (self : Loader.DataLoader)
      (video : string) :
  In video found ->
  Loader.keyed_by_name found (Loader.videos self) ->
  Loader.keyed_by_name found (Loader.videos (Loader.setup_video self video)).
Proof.
  intros Hin [Hnd Hall]. rewrite setup_video_entry. simpl. split.
  - now apply dict_set_NoDup.
  - apply dict_set_Forall; [exact Hall|]. simpl. split; [reflexivity | exact Hin].
Qed.

Lemma fold_setup_video_keyed (found vs : list string) (self : Loader.DataLoader) :
  (forall v, In v vs -> In v found) ->
  Loader.keyed_by_name found (Loader.videos self) ->
  let self' := fold_left Loader.setup_video vs self in
  Loader.keyed_by_name found (Loader.videos self') /\
  (forall k, In k (dict_keys (Loader.videos self)) ->
             In k (dict_keys (Loader.videos self'))) /\
  (forall v, In v vs ->
             In (Loader.video_name_of v) (dict_keys (Loader.videos self'))).
Proof.
  revert self; induction vs as [|video vs IH]; intros self Hsub Hkey; simpl.
  - repeat split; try apply Hkey; tauto.
  - assert (Hkey' : Loader.keyed_by_name found
                      (Loader.videos (Loader.setup_video self video))).
    { apply setup_video_keyed; [apply Hsub; now left | exact Hkey]. }
    destruct (IH (Loader.setup_video self video)
                 (fun v Hv => Hsub v (or_intror Hv)) Hkey') as (H1 & H2 & H3).
    split; [exact H1|]. split.
    + intros k Hk. apply H2. rewrite setup_video_entry. simpl.
      apply dict_set_keys. now right.
    + intros v [<-|Hv]; [|now apply H3].
      apply H2. rewrite setup_video_entry. simpl.
      apply dict_set_keys. now left.
Qed.

(** X2.  In a loader as [__init__] builds it the keys are pairwise
    different, the record found under a name holds a path that [glob] found
    under the folder and whose last component is that name, and every
    directory that [glob] found can be fetched with [__getitem__] under its
    last path component. *)
Theorem init_lookup_by_name
        (video_folder : string) (resize_height resize_width : nat) :
  let self := Loader.__init__ video_folder resize_height resize_width in
  let found := glob (os_path_join video_folder "*") in
  NoDup (dict_keys (Loader.videos self)) /\
  (forall name info,
      dict_get (Loader.videos self) name = Some info ->
      name = Loader.video_name_of (Loader.v_path info) /\
      In (Loader.v_path info) found) /\
  (forall video,
      In video found ->
      exists info,
        Loader.__getitem__ self (Loader.video_name_of video) = (Ok info, self) /\
        Loader.video_name_of (Loader.v_path info) = Loader.video_name_of video).
Proof.
  intros self found.
  assert (Hsub : forall v, In v (sorted found) -> In v found).
  { intros v Hv. eapply Permutation_in; [|exact Hv].
    symmetry. apply StringSort.Permuted_sort. }
  assert (Hempty : Loader.keyed_by_name found []) by (split; constructor).
  pose proof (@fold_setup_video_keyed found (sorted found)
                {| Loader.dir := video_folder; Loader.videos := [];
                   Loader._resize_height := resize_height;
                   Loader._resize_width := resize_width |} Hsub Hempty)
    as ([Hnd Hall] & _ & Hnames).
  fold self in Hnd, Hall, Hnames.
  rewrite Forall_forall in Hall.
  split; [exact Hnd|]. split.
  - intros name info Hget. apply dict_get_In in Hget. exact (Hall _ Hget).
  - intros video Hin.
    assert (Hkey : In (Loader.video_name_of video) (dict_keys (Loader.videos self))).
    { apply Hnames. eapply Permutation_in; [|exact Hin].
      apply StringSort.Permuted_sort. }
    unfold Loader.__getitem__.
    replace (existsb (String.eqb (Loader.video_name_of video))
                     (dict_keys (Loader.videos self))) with true
      by (symmetry; now apply existsb_eqb_In).
    apply dict_get_keys in Hkey.
    destruct (dict_get (Loader.videos self) (Loader.video_name_of video))
      as [info|] eqn:Hget; [|contradiction].
    exists info. rewrite (dict_getitem_found _ _ Hget).
    split; [reflexivity|].
    apply dict_get_In in Hget. symmetry. exact (proj1 (Hall _ Hget)).
Qed.

Lemma with_videos_same (self : Loader.DataLoader) :
  Loader.with_videos self (Loader.videos self) = self.
Proof. now destruct self. Qed.

Lemma fold_setup_video_present (vs : list string) (self : Loader.DataLoader) :
  NoDup (dict_keys (Loader.videos self)) ->
  (forall v, In v vs -> In (Loader.video_entry v) (Loader.videos self)) ->
  fold_left Loader.setup_video vs self = self.
Proof.
  intros Hnd Hall. induction vs as [|video vs IH]; simpl; [reflexivity|].
  rewrite setup_video_entry.
  destruct (Loader.video_entry video) as [k v] eqn:He. simpl.
  rewrite dict_set_same.
  - rewrite with_videos_same. apply IH. intros v0 Hv0. apply Hall. now right.
  - exact Hnd.
  - rewrite <- He. apply Hall. now left.
Qed.

(** X3.  Running [setup] again on the loader [__init__] built changes
    nothing, when the listing of the folder is the same and the directories
    have pairwise different last path components. *)
Theorem setup_again_changes_nothing
        (video_folder : string) (resize_height resize_width : nat) :
  NoDup (map Loader.video_name_of (glob (os_path_join video_folder "*"))) ->
  let self := Loader.__init__ video_folder resize_height resize_width in
  Loader.setup self = self.
Proof.
  intros Hnd self.
  assert (Hdir : Loader.dir self = video_folder).
  { unfold self, Loader.__init__, Loader.setup. simpl.
    generalize (sorted (glob (os_path_join video_folder "*"))). intros vs.
    generalize (@nil (string * Loader.video_info)). 
    induction vs as [|v vs IH]; intros d; simpl; [reflexivity | apply IH]. }
  assert (Hvideos : Loader.videos self
                    = map Loader.video_entry
                          (sorted (glob (os_path_join video_folder "*")))).
  { unfold self, Loader.__init__, Loader.setup. simpl.
    rewrite fold_setup_video_fresh; [reflexivity|]. simpl.
    eapply Permutation_NoDup; [|exact Hnd].
    apply Permutation_map. apply StringSort.Permuted_sort. }
  unfold Loader.setup. rewrite Hdir.
  apply fold_setup_video_present.
  - rewrite Hvideos. unfold dict_keys. rewrite map_map.
    eapply Permutation_NoDup; [|exact Hnd].
    apply Permutation_map. apply StringSort.Permuted_sort.
  - intros v Hv. rewrite Hvideos. now apply in_map.
Qed.

End SetupLookup.

Lemma setup_again_changes_nothing_witness :
  Loader.setup (E := Demo.world) Demo.loader = Demo.loader.
Proof.
  apply (@setup_again_changes_nothing Demo.world "frames" 2 2).
  repeat constructor; simpl; intuition discriminate.
Defined.

(* ===================================================================== *)
(** * More on [get_video_clips]: what it raises, how clips join *)
(* ===================================================================== *)

Section ClipErrors.
Context {E : Extern} {ES : ExternSpec E}.

Lemma for_append_app X Y (f : X -> result Y) (xs ys : list X) :
  for_append f (xs ++ ys)
  = (a <- for_append f xs ;; b <- for_append f ys ;; Ok (a ++ b)).
Proof.
  induction xs as [|x xs IH]; simpl.
  - destruct (for_append f ys); reflexivity.
  - destruct (f x) as [y|e]; simpl; [|reflexivity].
    rewrite IH. destruct (for_append f xs) as [a|e]; simpl; [|reflexivity].
    destruct (for_append f ys); reflexivity.
Qed.

Lemma map_seq_offset X (f : nat -> X) (n len : nat) :
  map f (seq n len) = map (fun k => f (n + k)%nat) (seq 0 len).
Proof.
  revert n; induction len as [|len IH]; intros n; simpl; [reflexivity|].
  rewrite Nat.add_0_r. f_equal.
  rewrite IH, <- seq_shift, map_map.
  apply map_ext. intros k. f_equal. lia.
Qed.

Lemma range_app (a m b : Z) :
  (a <= m <= b)%Z -> range a b = range a m ++ range m b.
Proof.
  intros H. unfold range.
  replace (Z.to_nat (b - a)) with (Z.to_nat (m - a) + Z.to_nat (b - m))%nat by lia.
  rewrite seq_app, map_app. f_equal. simpl.
  rewrite map_seq_offset. apply map_ext. intros k. lia.
Qed.

Lemma list_getitem_past_end X (l : list X) (i : Z) :
  (Z.of_nat (List.length l) <= i)%Z -> list_getitem l i = Raise IndexError.
Proof.
  intros H. unfold list_getitem, norm_index.
  replace (i <? 0)%Z with false by lia.
  replace ((0 <=? i) && (i <? Z.of_nat (List.length l)))%Z with false by lia.
  reflexivity.
Qed.

(** The loop of [get_video_clips] stops at the first index whose frame
    cannot be had, with the exception raised there. *)
Lemma get_video_clips_stops_at
      (self : Loader.DataLoader) (video : string) (info : Loader.video_info)
      (start k end_ : Z) (loaded : list imagef) (e : exn) :
  dict_get (Loader.videos self) video = Some info ->
  (0 <= start <= k)%Z -> (k < end_)%Z ->
  (k <= Z.of_nat (List.length (Loader.v_frame info)))%Z ->
  Forall2 (fun filename arr =>
             Loader.np_load_frame filename
               (Loader._resize_height self) (Loader._resize_width self) = Ok arr)
          (Loader.frames_between info start k) loaded ->
  (filename <- list_getitem (Loader.v_frame info) k ;;
   Loader.np_load_frame filename
     (Loader._resize_height self) (Loader._resize_width self)) = Raise e ->
  Loader.get_video_clips self video start end_ = (Raise e, self).
Proof.
  intros Hget Hsk Hke Hk Hload Hfail.
  rewrite (@get_video_clips_found _ self video info start end_ Hget).
  rewrite (@range_app start k end_) by lia.
  rewrite for_append_app, load_range_slice by lia.
  apply for_append_Forall2 in Hload. rewrite Hload. cbn [bind].
  rewrite (range_cons (start := k) (stop := end_)) by lia.
  cbn [for_append]. rewrite Hfail. reflexivity.
Qed.

(** X4.  For a name that is not a key of [self.videos] and a range that is
    not empty, [get_video_clips] raises [KeyError], at the first frame it
    tries to read, and leaves the loader as it was. *)
Theorem get_video_clips_unknown_video
        (self : Loader.DataLoader) (video : string) (start end_ : Z) :
  dict_get (Loader.videos self) video = None ->
  (start < end_)%Z ->
  Loader.get_video_clips self video start end_ = (Raise KeyError, self).
Proof.
  intros Hget Hlt. unfold Loader.get_video_clips.
  rewrite (range_cons (start := start) (stop := end_)) by lia.
  cbn [for_append]. unfold dict_getitem. rewrite Hget. reflexivity.
Qed.

(** X5.  When [end] lies beyond the last frame of the video, with
    [0 <= start], [get_video_clips] first loads the frames from [start] to
    the last one and then raises [IndexError]: no shorter clip is
    returned. *)
Theorem get_video_clips_past_last_frame
        (self : Loader.DataLoader) (video : string) (info : Loader.video_info)
        (start end_ : Z) (loaded : list imagef) :
  let len := Z.of_nat (List.length (Loader.v_frame info)) in
  dict_get (Loader.videos self) video = Some info ->
  (0 <= start <= len)%Z -> (len < end_)%Z ->
  Forall2 (fun filename arr =>
             Loader.np_load_frame filename
               (Loader._resize_height self) (Loader._resize_width self) = Ok arr)
          (Loader.frames_between info start len) loaded ->
  Loader.get_video_clips self video start end_ = (Raise IndexError, self).
Proof.
  intros len Hget Hs He Hload.
  apply (@get_video_clips_stops_at self video info start len end_ loaded IndexError);
    try assumption; try lia.
  rewrite list_getitem_past_end by (fold len; lia). reflexivity.
Qed.

(** X7.  When the frames from [start] up to index [k] load and
    [cv2.imread] cannot read the file at index [k] of the range,
    [get_video_clips] raises [cv2.error] and returns no partial clip. *)
Theorem get_video_clips_unreadable_frame
        (self : Loader.DataLoader) (video : string) (info : Loader.video_info)
        (start k end_ : Z) (loaded : list imagef) (filename : string) :
  dict_get (Loader.videos self) video = Some info ->
  (0 <= start <= k)%Z -> (k < end_)%Z ->
  nth_error (Loader.v_frame info) (Z.to_nat k) = Some filename ->
  Forall2 (fun filename arr =>
             Loader.np_load_frame filename
               (Loader._resize_height self) (Loader._resize_width self) = Ok arr)
          (Loader.frames_between info start k) loaded ->
  imread filename = None ->
  Loader.get_video_clips self video start end_ = (Raise CvError, self).
Proof.
  intros Hget Hsk Hke Hnth Hload Hnone.
  assert (Hk : (k < Z.of_nat (List.length (Loader.v_frame info)))%Z).
  { assert (Hsome : nth_error (Loader.v_frame info) (Z.to_nat k) <> None)
      by (rewrite Hnth; discriminate).
    apply nth_error_Some in Hsome. lia. }
  apply (@get_video_clips_stops_at self video info start k end_ loaded CvError);
    try assumption; try lia.
  destruct (@list_getitem_nonneg _ (Loader.v_frame info) k ltac:(lia))
    as (x & Hx & Hg).
  rewrite Hg. cbn [bind]. assert (x = filename) by congruence. subst x.
  unfold Loader.np_load_frame. now rewrite Hnone.
Qed.

End ClipErrors.

Lemma get_video_clips_unknown_video_witness :
  Loader.get_video_clips (E := Demo.world) Demo.loader "nowhere" 0 1
  = (Raise KeyError, Demo.loader).
Proof.
  apply (get_video_clips_unknown_video (E := Demo.world) Demo.loader "nowhere").
  - reflexivity.
  - lia.
Defined.

Lemma get_video_clips_past_last_frame_witness :
  Loader.get_video_clips (E := Demo.world) Demo.loader "02" 1 5
  = (Raise IndexError, Demo.loader).
Proof.
  apply (get_video_clips_past_last_frame (E := Demo.world) Demo.loader "02"
           (info := Demo.video02) (start := 1) (end_ := 5)
           (loaded := [Demo.loaded 102 103; Demo.loaded 104 105])).
  - reflexivity.
  - simpl. lia.
  - simpl. lia.
  - repeat constructor.
Defined.

Lemma get_video_clips_below_length_witness :
  Loader.get_video_clips (E := Demo.world) Demo.loader "01" (-7) 4
  = (Raise IndexError, Demo.loader).
Proof.
  apply (get_video_clips_below_length (E := Demo.world) Demo.loader "01"
           (info := Demo.video01)).
  - reflexivity.
  - simpl. lia.
  - lia.
Defined.

Lemma get_video_clips_unreadable_frame_witness :
  let self := Loader.__init__ (E := Demo.damaged_world) "frames" 2 2 in
  Loader.get_video_clips (E := Demo.damaged_world) self "02" 0 3
  = (Raise CvError, self).
Proof.
  apply (get_video_clips_unreadable_frame (E := Demo.damaged_world)
           (Loader.__init__ (E := Demo.damaged_world) "frames" 2 2) "02"
           (info := Demo.video02) (start := 0) (k := 1) (end_ := 3)
           (loaded := [Demo.loaded 100 101]) (filename := "frames/02/1.jpg")).
  - reflexivity.
  - lia.
  - lia.
  - reflexivity.
  - repeat constructor.
  - reflexivity.
Defined.

Section NpJoin.
Context {A : Type}.

Lemma channel_concat_app h w (l1 l2 : list (ndarray3 A)) :
  channel_concat h w (l1 ++ l2)
  = cat2 (channel_concat h w l1) (channel_concat h w l2).
Proof.
  unfold channel_concat.
  rewrite (@cat2_tabulate A h w) by apply tabulate_hw.
  apply tabulate_ext. intros i j Hi Hj.
  rewrite !tabulate_pixel by assumption.
  now rewrite map_app, concat_app.
Qed.

Lemma nth_concat_uniform (c : nat) (ls : list (list A)) (n ch : nat) (d : A) :
  Forall (fun l => List.length l = c) ls ->
  (ch < c)%nat ->
  nth (c * n + ch) (List.concat ls) d = nth ch (nth n ls []) d.
Proof.
  intros Hls Hch. revert n.
  induction Hls as [|l ls Hl _ IH]; intros n; simpl.
  - destruct n; simpl; destruct ch; simpl; now destruct (c * _ + _)%nat.
  - destruct n as [|n].
    + rewrite Nat.mul_0_r. simpl. apply app_nth1. lia.
    + replace (c * S n + ch)%nat with (List.length l + (c * n + ch))%nat by lia.
      rewrite app_nth2_plus. apply IH.
Qed.

Lemma firstn_add (a b : nat) (l : list A) :
  firstn (a + b) l = firstn a l ++ firstn b (skipn a l).
Proof.
  revert l; induction a as [|a IH]; intros l; simpl; [reflexivity|].
  destruct l as [|x l]; simpl; [now rewrite firstn_nil | now rewrite IH].
Qed.

End NpJoin.

Section ClipJoin.
Context {E : Extern} {ES : ExternSpec E}.

Lemma frames_between_app (info : Loader.video_info) (start mid stop : Z) :
  (0 <= start <= mid)%Z -> (mid <= stop)%Z ->
  Loader.frames_between info start stop
  = Loader.frames_between info start mid ++ Loader.frames_between info mid stop.
Proof.
  intros H1 H2. unfold Loader.frames_between.
  replace (Z.to_nat (stop - start))
    with (Z.to_nat (mid - start) + Z.to_nat (stop - mid))%nat by lia.
  rewrite firstn_add, skipn_skipn. do 3 f_equal. lia.
Qed.

(** The clip of a range inside the frames of a known video. *)
Lemma get_video_clips_loaded
      (self : Loader.DataLoader) (video : string) (info : Loader.video_info)
      (start end_ : Z) (loaded : list imagef) :
  dict_get (Loader.videos self) video = Some info ->
  (0 <= start < end_)%Z ->
  (end_ <= Z.of_nat (List.length (Loader.v_frame info)))%Z ->
  Forall2 (fun filename arr =>
             Loader.np_load_frame filename
               (Loader._resize_height self) (Loader._resize_width self) = Ok arr)
          (Loader.frames_between info start end_) loaded ->
  Loader.get_video_clips self video start end_
  = (Ok (channel_concat (Loader._resize_height self) (Loader._resize_width self)
           loaded), self).
Proof.
  intros Hget Hse Hend Hload.
  assert (Hne : Loader.frames_between info start end_ <> []).
  { intros Hnil.
    pose proof (@frames_between_length info start end_ ltac:(lia) Hend) as Hn.
    rewrite Hnil in Hn. simpl in Hn. lia. }
  destruct (concatenate_loaded _ _ Hload Hne) as [Hcat _].
  rewrite (@get_video_clips_found _ self video info start end_ Hget).
  rewrite load_range_slice by lia.
  apply for_append_Forall2 in Hload. rewrite Hload. cbn [bind].
  now rewrite Hcat.
Qed.

(** X8.  Clips of adjacent ranges join: for [0 <= start < mid < end] within
    the frames of a video, the clip of [start .. end - 1] is the clip of
    [start .. mid - 1] followed, along the channel axis, by the clip of
    [mid .. end - 1]. *)
Theorem get_video_clips_adjacent_ranges
        (self : Loader.DataLoader) (video : string) (info : Loader.video_info)
        (start mid end_ : Z) (loaded : list imagef) :
  dict_get (Loader.videos self) video = Some info ->
  (0 <= start < mid)%Z -> (mid < end_)%Z ->
  (end_ <= Z.of_nat (List.length (Loader.v_frame info)))%Z ->
  Forall2 (fun filename arr =>
             Loader.np_load_frame filename
               (Loader._resize_height self) (Loader._resize_width self) = Ok arr)
          (Loader.frames_between info start end_) loaded ->
  exists first second,
    Loader.get_video_clips self video start mid = (Ok first, self) /\
    Loader.get_video_clips self video mid end_ = (Ok second, self) /\
    Loader.get_video_clips self video start end_ = (Ok (cat2 first second), self).
Proof.
  intros Hget Hsm Hme Hend Hload.
  pose proof (@get_video_clips_loaded self video info start end_ loaded
                Hget ltac:(lia) Hend Hload) as Hall.
  rewrite (@frames_between_app info start mid end_) in Hload by lia.
  apply Forall2_app_inv_l in Hload as (l1 & l2 & H1 & H2 & ->).
  exists (channel_concat (Loader._resize_height self) (Loader._resize_width self) l1),
         (channel_concat (Loader._resize_height self) (Loader._resize_width self) l2).
  split; [|split].
  - apply get_video_clips_loaded with (info := info); try assumption; lia.
  - apply get_video_clips_loaded with (info := info); try assumption; lia.
  - rewrite Hall. f_equal. f_equal. apply (@channel_concat_app Q).
Qed.

(** X9.  Channel layout of a clip: in the clip of the frames
    [start .. end - 1], at every pixel, channel [3 * n + ch] is channel
    [ch] of frame [start + n] as [np_load_frame] returns it. *)
Theorem get_video_clips_channel_layout
        (self : Loader.DataLoader) (video : string) (info : Loader.video_info)
        (start end_ : Z) (loaded : list imagef) (n ch i j : nat) (d : Q) :
  dict_get (Loader.videos self) video = Some info ->
  (0 <= start < end_)%Z ->
  (end_ <= Z.of_nat (List.length (Loader.v_frame info)))%Z ->
  Forall2 (fun filename arr =>
             Loader.np_load_frame filename
               (Loader._resize_height self) (Loader._resize_width self) = Ok arr)
          (Loader.frames_between info start end_) loaded ->
  (i < Loader._resize_height self)%nat ->
  (j < Loader._resize_width self)%nat ->
  (ch < 3)%nat ->
  exists clip,
    Loader.get_video_clips self video start end_ = (Ok clip, self) /\
    nth (3 * n + ch) (pixel_at clip i j) d
    = nth ch (pixel_at (nth n loaded []) i j) d.
Proof.
  intros Hget Hse Hend Hload Hi Hj Hch.
  eexists. split.
  - apply get_video_clips_loaded with (info := info); eassumption.
  - unfold channel_concat. rewrite tabulate_pixel by assumption.
    rewrite nth_concat_uniform; [|
      | exact Hch].
    + f_equal.
      assert (Hnil : pixel_at (@nil (list (list Q))) i j = [])
        by (unfold pixel_at; destruct i, j; reflexivity).
      pose proof (map_nth (fun f : imagef => pixel_at f i j) loaded [] n) as Hm.
      cbv beta in Hm. rewrite <- Hm. now rewrite Hnil.
    + apply Forall_forall. intros px Hpx.
      apply in_map_iff in Hpx as (f & <- & Hf).
      destruct (@Forall2_In_r _ _ _ _ _ _ Hload Hf) as (name & _ & Hname).
      apply np_load_frame_shape in Hname.
      now apply (has_shape_pixel Hname).
Qed.

End ClipJoin.

Lemma get_video_clips_adjacent_ranges_witness :
  exists first second,
    Loader.get_video_clips (E := Demo.world) Demo.loader "01" 1 3
    = (Ok first, Demo.loader) /\
    Loader.get_video_clips (E := Demo.world) Demo.loader "01" 3 6
    = (Ok second, Demo.loader) /\
    Loader.get_video_clips (E := Demo.world) Demo.loader "01" 1 6
    = (Ok (cat2 first second), Demo.loader).
Proof.
  apply (get_video_clips_adjacent_ranges (ES := demo_spec) Demo.loader "01"
           (info := Demo.video01) (start := 1) (mid := 3) (end_ := 6)
           (loaded := [Demo.loaded 10 245; Demo.loaded 20 235; Demo.loaded 30 225;
                       Demo.loaded 40 215; Demo.loaded 50 205])).
  - reflexivity.
  - lia.
  - lia.
  - simpl. lia.
  - repeat constructor.
Defined.

Lemma get_video_clips_channel_layout_witness :
  exists clip,
    Loader.get_video_clips (E := Demo.world) Demo.loader "01" 1 3
    = (Ok clip, Demo.loader) /\
    nth (3 * 1 + 2) (pixel_at clip 0 1) 0
    = nth 2 (pixel_at (nth 1 [Demo.loaded 10 245; Demo.loaded 20 235] []) 0 1) 0.
Proof.
  apply (get_video_clips_channel_layout (ES := demo_spec) Demo.loader "01"
           (info := Demo.video01) (start := 1) (end_ := 3)
           (loaded := [Demo.loaded 10 245; Demo.loaded 20 235]) 1 (ch := 2)
           (i := 0%nat) (j := 1%nat) 0).
  - reflexivity.
  - lia.
  - simpl. lia.
  - repeat constructor.
  - simpl. lia.
  - simpl. lia.
  - lia.
Defined.

(* ===================================================================== *)
(** * More on the generator *)
(* ===================================================================== *)

Section GeneratorRuns.
Context {E : Extern} {ES : ExternSpec E}.

Lemma in_firstn_skipn X (x : X) (n s : nat) (l : list X) :
  In x (firstn n (skipn s l)) -> In x l.
Proof.
  intros H.
  rewrite <- (firstn_skipn s l). apply in_or_app. right.
  rewrite <- (firstn_skipn n (skipn s l)). apply in_or_app. now left.
Qed.

(** The state a yielded clip comes with is the next position of the
    round. *)
Lemma generator_outcome_state (ds : Loader.dataset) (v_id v_id' : Z)
      (outcomes : list (result (Z * imagef))) (clip : imagef) :
  Loader.video_clip_generator ds v_id = Ok outcomes ->
  In (Ok (v_id', clip)) outcomes ->
  let n := Z.of_nat (List.length (Loader.video_info_list ds)) in
  v_id' = ((v_id + 1) mod n)%Z /\ (0 < n)%Z.
Proof.
  intros Hgen Hin n. unfold Loader.video_clip_generator in Hgen.
  apply bind_ok_inv in Hgen as (v & Hv & Hgen).
  apply bind_ok_inv in Hgen as (info & _ & Hgen).
  apply bind_ok_inv in Hgen as (starts & _ & Hgen).
  injection Hgen as <-.
  apply in_map_iff in Hin as (start & Hclip & _).
  apply bind_ok_inv in Hclip as (clip' & _ & Hclip).
  injection Hclip as <- <-.
  apply mod_ok in Hv as (_ & Hveq & Hn). fold n in Hveq, Hn.
  split; [exact Hveq | lia].
Qed.

(** X10.  The clip the generator builds for a video and a drawn [start]
    is what [get_video_clips] returns for that video and the range
    [start .. start + clip_length - 1], exception included. *)
Theorem generator_clip_is_get_video_clips
        (self : Loader.DataLoader) (video : string) (info : Loader.video_info)
        (batch_size time_steps num_pred start : Z) :
  dict_get (Loader.videos self) video = Some info ->
  Loader.video_clip_at
    (fst (Loader.__call__ self batch_size time_steps num_pred)) info start
  = fst (Loader.get_video_clips self video start (start + (time_steps + num_pred))).
Proof.
  intros Hget.
  rewrite (@get_video_clips_found _ self video info start
             (start + (time_steps + num_pred)) Hget).
  reflexivity.
Qed.

(** X11.  The generator goes round the videos in the order of the list:
    in any run, the clip yielded at turn [k] (counting from 0) comes from the
    video at position [k mod num_videos], whatever the starts drawn. *)
Theorem generator_round_robin
        (ds : Loader.dataset) (clips : list (Z * imagef)) (v_id : Z) :
  Loader.yields_run ds clips v_id ->
  let n := Z.of_nat (List.length (Loader.video_info_list ds)) in
  map fst clips = map (fun k => (Z.of_nat k mod n)%Z) (seq 0 (List.length clips)).
Proof.
  intros Hrun n.
  enough (H : map fst clips
              = map (fun k => (Z.of_nat k mod n)%Z) (seq 0 (List.length clips)) /\
              ((v_id + 1) mod n = Z.of_nat (List.length clips) mod n)%Z)
    by exact (proj1 H).
  induction Hrun as [|clips v_id v_id' outcomes clip Hrun [IHmap IHv] Hgen Hin].
  - split; reflexivity.
  - destruct (@generator_outcome_state ds v_id v_id' outcomes clip Hgen Hin) as [Hv' Hn].
    fold n in Hv', Hn.
    rewrite length_app, map_app, seq_app, map_app. simpl.
    split.
    + rewrite <- IHmap. f_equal. f_equal. congruence.
    + rewrite Hv', IHv. rewrite Z.add_mod_idemp_l by lia.
      f_equal. lia.
Qed.

(** X12.  When [glob] finds nothing under the folder, the loader has no
    video and the first turn of its generator raises [ZeroDivisionError]. *)
Theorem generator_of_empty_folder
        (video_folder : string) (resize_height resize_width : nat)
        (batch_size time_steps num_pred : Z) :
  glob (os_path_join video_folder "*") = [] ->
  let self := Loader.__init__ video_folder resize_height resize_width in
  Loader.videos self = [] /\
  Loader.video_clip_generator
    (fst (Loader.__call__ self batch_size time_steps num_pred)) Loader.v_id_init
  = Raise ZeroDivisionError.
Proof.
  intros Hglob self.
  assert (Hvideos : Loader.videos self = []).
  { unfold self, Loader.__init__, Loader.setup. simpl. rewrite Hglob. reflexivity. }
  split; [exact Hvideos|].
  unfold Loader.video_clip_generator, Loader.__call__. simpl.
  rewrite Hvideos. reflexivity.
Qed.

(** X13.  A video that is not longer than a clip stops the generator: when
    the video whose turn it is has [length <= clip_length], the turn raises
    the [ValueError] of [randint] and yields nothing. *)
Theorem generator_short_video
        (ds : Loader.dataset) (v_id : Z) (info : Loader.video_info) :
  let n := Z.of_nat (List.length (Loader.video_info_list ds)) in
  nth_error (Loader.video_info_list ds) (Z.to_nat ((v_id + 1) mod n)) = Some info ->
  (Loader.v_length info <= Loader.clip_length ds)%Z ->
  Loader.video_clip_generator ds v_id = Raise ValueError.
Proof.
  intros n Hnth Hshort.
  assert (Hn : (0 < n)%Z).
  { destruct (Loader.video_info_list ds) eqn:Hl; [|unfold n; simpl; lia].
    now destruct (Z.to_nat ((v_id + 1) mod n)). }
  unfold Loader.video_clip_generator. fold n. unfold mod_.
  replace (n =? 0)%Z with false by lia. cbn [bind].
  pose proof (Z.mod_pos_bound (v_id + 1) n Hn) as Hb.
  destruct (@list_getitem_nonneg _ (Loader.video_info_list ds)
              ((v_id + 1) mod n)%Z ltac:(fold n; lia)) as (x & Hx & Hg).
  rewrite Hg. cbn [bind]. assert (x = info) by congruence. subst x.
  unfold Loader.video_clip_start, randint.
  replace (0 <? Loader.v_length info - Loader.clip_length ds)%Z with false by lia.
  reflexivity.
Qed.

(** X14.  A turn on a video longer than a clip, whose ['length'] counts
    its frames and whose frames all load, raises nothing: it has one outcome
    for each start [0 .. length - clip_length - 1], the clip of the
    [clip_length] frames from that start on, and it moves to the next
    position of the round. *)
Theorem generator_turn_outcomes
        (ds : Loader.dataset) (v_id : Z) (info : Loader.video_info)
        (loaded_of : string -> imagef) :
  let n := Z.of_nat (List.length (Loader.video_info_list ds)) in
  let v_id' := ((v_id + 1) mod n)%Z in
  let c := Loader.clip_length ds in
  nth_error (Loader.video_info_list ds) (Z.to_nat v_id') = Some info ->
  Loader.v_length info = Z.of_nat (List.length (Loader.v_frame info)) ->
  (0 < c < Loader.v_length info)%Z ->
  (forall filename, In filename (Loader.v_frame info) ->
     Loader.np_load_frame filename (Loader.resize_height ds) (Loader.resize_width ds)
     = Ok (loaded_of filename)) ->
  Loader.video_clip_generator ds v_id
  = Ok (map (fun start =>
               Ok (v_id',
                   channel_concat (Loader.resize_height ds) (Loader.resize_width ds)
                     (map loaded_of (Loader.frames_between info start (start + c)))))
            (range 0 (Loader.v_length info - c))).
Proof.
  intros n v_id' c Hnth Hlen Hc Hload.
  assert (Hn : (0 < n)%Z).
  { destruct (Loader.video_info_list ds) eqn:Hl; [|unfold n; simpl; lia].
    now destruct (Z.to_nat v_id'). }
  unfold Loader.video_clip_generator. fold n. unfold mod_.
  replace (n =? 0)%Z with false by lia. cbn [bind]. fold v_id'.
  pose proof (Z.mod_pos_bound (v_id + 1) n Hn) as Hb. fold v_id' in Hb.
  destruct (@list_getitem_nonneg _ (Loader.video_info_list ds) v_id'
              ltac:(fold n; lia)) as (x & Hx & Hg).
  rewrite Hg. cbn [bind]. assert (x = info) by congruence. subst x.
  unfold Loader.video_clip_start, randint. fold c.
  replace (0 <? Loader.v_length info - c)%Z with true by lia. cbn [bind].
  f_equal. apply map_ext_in. intros start Hstart. apply in_range in Hstart.
  unfold Loader.video_clip_at. fold c.
  rewrite load_range_slice by lia.
  assert (HF : Forall2 (fun filename arr =>
                  Loader.np_load_frame filename
                    (Loader.resize_height ds) (Loader.resize_width ds) = Ok arr)
                 (Loader.frames_between info start (start + c))
                 (map loaded_of (Loader.frames_between info start (start + c)))).
  { apply Forall2_map_r_in. intros f Hf. apply Hload.
    unfold Loader.frames_between in Hf. eapply in_firstn_skipn; eauto. }
  assert (Hne : Loader.frames_between info start (start + c) <> []).
  { intros Hnil.
    pose proof (@frames_between_length info start (start + c)
                  ltac:(lia) ltac:(lia)) as Hlen'.
    rewrite Hnil in Hlen'. simpl in Hlen'. lia. }
  destruct (concatenate_loaded _ _ HF Hne) as [Hcat _].
  apply for_append_Forall2 in HF. rewrite HF. cbn [bind].
  now rewrite Hcat.
Qed.

End GeneratorRuns.

Lemma generator_clip_is_get_video_clips_witness :
  Loader.video_clip_at (E := Demo.world)
    (fst (Loader.__call__ Demo.loader 4 4 1)) Demo.video01 1
  = fst (Loader.get_video_clips (E := Demo.world) Demo.loader "01" 1 (1 + (4 + 1))).
Proof.
  apply (generator_clip_is_get_video_clips (E := Demo.world) Demo.loader "01"
           (info := Demo.video01)).
  reflexivity.
Defined.

Lemma generator_round_robin_witness :
  let first := channel_concat 2 2 [Demo.loaded 0 255; Demo.loaded 10 245] in
  let second := channel_concat 2 2 [Demo.loaded 100 101; Demo.loaded 102 103] in
  map fst ((([] ++ [(0%Z, first)]) ++ [(1%Z, second)]) ++ [(0%Z, first)])
  = [0; 1; 0]%Z.
Proof.
  intros first second.
  assert (Hrun : Loader.yields_run (E := Demo.world)
                   (fst (Loader.__call__ Demo.loader 4 1 1))
                   ((([] ++ [(0%Z, first)]) ++ [(1%Z, second)]) ++ [(0%Z, first)])
                   0).
  { eapply Loader.run_turn; [eapply Loader.run_turn; [eapply Loader.run_turn;
      [apply Loader.run_start | |] | |] | |].
    - vm_compute. reflexivity.
    - left. reflexivity.
    - vm_compute. reflexivity.
    - left. reflexivity.
    - vm_compute. reflexivity.
    - left. reflexivity. }
  exact (generator_round_robin Hrun).
Defined.

Lemma generator_of_empty_folder_witness :
  Loader.videos (Loader.__init__ (E := Demo.world) "empty" 2 2) = [] /\
  Loader.video_clip_generator (E := Demo.world)
    (fst (Loader.__call__ (Loader.__init__ (E := Demo.world) "empty" 2 2) 4 4 1))
    Loader.v_id_init
  = Raise ZeroDivisionError.
Proof.
  apply (generator_of_empty_folder (E := Demo.world) "empty" 2 2 4 4 1).
  reflexivity.
Defined.

Lemma generator_short_video_witness :
  Loader.video_clip_generator (E := Demo.world)
    (fst (Loader.__call__ Demo.loader 4 4 1)) 0
  = Raise ValueError.
Proof.
  apply (generator_short_video (E := Demo.world)
           (fst (Loader.__call__ Demo.loader 4 4 1)) 0 (info := Demo.video02)).
  - reflexivity.
  - simpl. lia.
Defined.

Lemma generator_turn_outcomes_witness :
  let loaded_of := fun f =>
    match Loader.np_load_frame (E := Demo.world) f 2 2 with
    | Ok arr => arr
    | Raise _ => []
    end in
  Loader.video_clip_generator (E := Demo.world)
    (fst (Loader.__call__ Demo.loader 4 3 1)) Loader.v_id_init
  = Ok (map (fun start =>
               Ok (0%Z,
                   channel_concat 2 2
                     (map loaded_of
                          (Loader.frames_between Demo.video01 start (start + 4)))))
            (range 0 (6 - 4))).
Proof.
  intros loaded_of.
  apply (generator_turn_outcomes (ES := demo_spec)
           (fst (Loader.__call__ Demo.loader 4 3 1)) Loader.v_id_init
           (info := Demo.video01) loaded_of).
  - reflexivity.
  - reflexivity.
  - simpl. lia.
  - intros filename Hin. simpl in Hin.
    repeat (destruct Hin as [<-|Hin]; [reflexivity|]). contradiction.
Defined.

(* ===================================================================== *)
(** * More on [np_load_frame] and the metrics *)
(* ===================================================================== *)

Section FrameDecoding.
Context {E : Extern}.



End FrameDecoding.


Section MetricsMore.
Import Metrics.
Local Open Scope R_scope.

Lemma sum_upto_nonneg (n : nat) (f : nat -> R) :
  (forall i, (i < n)%nat -> 0 <= f i) -> 0 <= sum_upto n f.
Proof.
  induction n as [|n IH]; intros H; simpl; [lra|].
  pose proof (IH (fun i Hi => H i (Nat.lt_lt_succ_r _ _ Hi))).
  pose proof (H n (Nat.lt_succ_diag_r n)). lra.
Qed.

Lemma sum_upto_le_const (n : nat) (f : nat -> R) (M : R) :
  (forall i, (i < n)%nat -> f i <= M) -> sum_upto n f <= INR n * M.
Proof.
  induction n as [|n IH]; intros H.
  - simpl. lra.
  - rewrite S_INR. simpl.
    pose proof (IH (fun i Hi => H i (Nat.lt_lt_succ_r _ _ Hi))).
    pose proof (H n (Nat.lt_succ_diag_r n)). lra.
Qed.

Lemma sum_upto_scal (n : nat) (f : nat -> R) (k : R) :
  sum_upto n (fun i => f i * k) = sum_upto n f * k.
Proof.
  induction n as [|n IH]; simpl; [ring | rewrite IH; ring].
Qed.

Lemma sum_box_scal (h w c : nat) (f : nat -> nat -> nat -> R) (k : R) :
  sum_box h w c (fun i j l => f i j l * k) = sum_box h w c f * k.
Proof.
  unfold sum_box.
  rewrite <- sum_upto_scal. apply sum_upto_ext. intros i _.
  rewrite <- sum_upto_scal. apply sum_upto_ext. intros j _.
  apply sum_upto_scal.
Qed.

Lemma sum_box_nonneg (h w c : nat) (f : nat -> nat -> nat -> R) :
  (forall i j k, (i < h)%nat -> (j < w)%nat -> (k < c)%nat -> 0 <= f i j k) ->
  0 <= sum_box h w c f.
Proof.
  intros H. unfold sum_box.
  apply sum_upto_nonneg. intros i Hi.
  apply sum_upto_nonneg. intros j Hj.
  apply sum_upto_nonneg. intros k Hk. now apply H.
Qed.

Lemma sum_box_le_count (h w c : nat) (f : nat -> nat -> nat -> R) :
  (forall i j k, (i < h)%nat -> (j < w)%nat -> (k < c)%nat -> f i j k <= 1) ->
  sum_box h w c f <= INR (h * w * c).
Proof.
  intros H. unfold sum_box. rewrite !mult_INR.
  replace (INR h * INR w * INR c) with (INR h * (INR w * (INR c * 1))) by ring.
  apply sum_upto_le_const. intros i Hi.
  apply sum_upto_le_const. intros j Hj.
  apply sum_upto_le_const. intros k Hk. now apply H.
Qed.

(** What [psnr_error] evaluates to on two tensors of one shape. *)
Lemma psnr_error_value (gen_frames gt_frames : tensor4) (b h w c : nat) :
  shape4 gen_frames = (b, h, w, c) ->
  shape4 gt_frames = (b, h, w, c) ->
  (Z.of_nat (h * w * c) < 2 ^ 31)%Z ->
  psnr_error gen_frames gt_frames = Ok (psnr_formula b h w c gen_frames gt_frames).
Proof.
  intros Hgen Hgt Hsize. unfold psnr_error.
  rewrite (@num_pixels_of_shape gen_frames b h w c Hgen Hsize).
  rewrite (@zip4_same_shape Rminus _ _ b h w c) by assumption.
  cbn [bind]. f_equal.
  unfold reduce_mean, psnr_formula, batch_mean. simpl. f_equal.
  apply sum_upto_ext. intros n Hn.
  unfold log10r, mse, mean_box. do 4 f_equal.
  unfold Rdiv at 1. rewrite Rmult_1_l, Rmult_comm. unfold Rdiv. f_equal.
  apply sum_box_ext. intros i j k Hi Hj Hk.
  now rewrite !bidx_lt by assumption.
Qed.

(** X16.  [psnr_error] does not depend on which of the two tensors is
    called generated and which ground truth, when they have one shape. *)
Theorem psnr_error_symmetric (x y : tensor4) (b h w c : nat) :
  shape4 x = (b, h, w, c) ->
  shape4 y = (b, h, w, c) ->
  (Z.of_nat (h * w * c) < 2 ^ 31)%Z ->
  psnr_error x y = psnr_error y x.
Proof.
  intros Hx Hy Hsize.
  rewrite (@psnr_error_value x y b h w c Hx Hy Hsize),
    (@psnr_error_value y x b h w c Hy Hx Hsize).
  f_equal. unfold psnr_formula, batch_mean. f_equal.
  apply sum_upto_ext. intros n _. do 3 f_equal.
  unfold mse, mean_box. f_equal.
  apply sum_box_ext. intros i j k _ _ _. apply Rsqr_neg_minus.
Qed.

Lemma ln_nonneg (x : R) : 1 <= x -> 0 <= ln x.
Proof.
  intros [Hlt|<-]; [|rewrite ln_1; lra].
  pose proof (ln_increasing 1 x ltac:(lra) Hlt) as H. rewrite ln_1 in H. lra.
Qed.

Lemma ln_10_pos : 0 < ln 10.
Proof.
  pose proof (ln_increasing 1 10 ltac:(lra) ltac:(lra)) as H.
  now rewrite ln_1 in H.
Qed.

(** X17.  On frames with entries in [-1, 1] that differ (every frame has a
    positive mean squared error), [psnr_error] is not negative: the rescaled
    frames lie in [0, 1], so no mean squared error exceeds the peak value 1. *)
Theorem psnr_error_nonnegative (gen_frames gt_frames : tensor4) (b h w c : nat) :
  shape4 gen_frames = (b, h, w, c) ->
  shape4 gt_frames = (b, h, w, c) ->
  (Z.of_nat (h * w * c) < 2 ^ 31)%Z ->
  (0 < b)%nat ->
  entries_in b h w c (fun x => -1 <= x <= 1) gen_frames ->
  entries_in b h w c (fun x => -1 <= x <= 1) gt_frames ->
  (forall n, (n < b)%nat -> 0 < mse h w c gen_frames gt_frames n) ->
  exists p, psnr_error gen_frames gt_frames = Ok p /\ 0 <= p.
Proof.
  intros Hgen Hgt Hsize Hb Egen Egt Hmse.
  rewrite (@psnr_error_value gen_frames gt_frames b h w c Hgen Hgt Hsize).
  eexists. split; [reflexivity|].
  unfold psnr_formula, batch_mean.
  apply Rmult_le_pos;
    [|left; apply Rinv_0_lt_compat; now apply lt_0_INR].
  apply sum_upto_nonneg. intros n Hn.
  specialize (Hmse n Hn).
  set (m := mse h w c gen_frames gt_frames n) in *.
  assert (Hle : m <= 1).
  { unfold m, mse, mean_box in *.
    destruct (Nat.eq_dec (h * w * c) 0) as [Hz|Hnz].
    - rewrite Hz in Hmse. simpl in Hmse. unfold Rdiv in Hmse.
      rewrite Rinv_0, Rmult_0_r in Hmse. lra.
    - assert (HN : 0 < INR (h * w * c)) by (apply lt_0_INR; lia).
      apply Rmult_le_reg_r with (r := INR (h * w * c)); [exact HN|].
      unfold Rdiv. rewrite Rmult_assoc, Rinv_l, Rmult_1_r, Rmult_1_l by lra.
      apply sum_box_le_count. intros i j k Hi Hj Hk.
      pose proof (Egen n i j k Hn Hi Hj Hk).
      pose proof (Egt n i j k Hn Hi Hj Hk).
      unfold Rsqr, rescale01. nra. }
  assert (Hinv : 1 <= 1 / m).
  { unfold Rdiv. rewrite Rmult_1_l. rewrite <- Rinv_1 at 1.
    apply Rinv_le_contravar; lra. }
  unfold log10r.
  apply Rmult_le_pos; [lra|].
  apply Rmult_le_pos; [now apply ln_nonneg|].
  left. apply Rinv_0_lt_compat. exact ln_10_pos.
Qed.

(** X18.  On frames normalised from pixel values as [np_load_frame]
    normalises them, [psnr_error] is the PSNR of the pixel values with peak
    255: the mean over the batch of [10 * log10 (255^2 / MSE)], the MSE
    being taken on the pixel values. *)
Theorem psnr_error_of_pixel_values
        (gen_pixels gt_pixels : tensor4) (b h w c : nat) :
  shape4 gen_pixels = (b, h, w, c) ->
  shape4 gt_pixels = (b, h, w, c) ->
  (Z.of_nat (h * w * c) < 2 ^ 31)%Z ->
  psnr_error (normalized gen_pixels) (normalized gt_pixels)
  = Ok (psnr255_formula b h w c gen_pixels gt_pixels).
Proof.
  intros Hgen Hgt Hsize.
  rewrite (@psnr_error_value (normalized gen_pixels) (normalized gt_pixels)
             b h w c Hgen Hgt Hsize).
  f_equal. unfold psnr_formula, psnr255_formula, batch_mean. f_equal.
  apply sum_upto_ext. intros n _. do 2 f_equal.
  unfold mse, mean_box.
  rewrite (@sum_box_ext h w c _
             (fun i j k =>
                Rsqr (at4 gt_pixels n i j k - at4 gen_pixels n i j k)
                * / Rsqr 255)).
  - rewrite sum_box_scal. unfold Rdiv.
    rewrite !Rmult_1_l, !Rinv_mult, !Rinv_inv. ring.
  - intros i j k _ _ _. unfold normalized, rescale01, Rsqr. simpl. field.
Qed.


End MetricsMore.

Section SharpnessMore.
Import Metrics.
Local Open Scope R_scope.

(** What [sharp_diff_error] evaluates to on two tensors of one shape. *)
Lemma sharp_diff_error_value (gen_frames gt_frames : tensor4) (b h w c : nat) :
  shape4 gen_frames = (b, h, w, c) ->
  shape4 gt_frames = (b, h, w, c) ->
  (Z.of_nat (h * w * c) < 2 ^ 31)%Z ->
  sharp_diff_error gen_frames gt_frames c
  = Ok (sharp_diff_formula b h w c gen_frames gt_frames).
Proof.
  intros Hgen Hgt Hsize. unfold sharp_diff_error.
  rewrite (@num_pixels_of_shape gen_frames b h w c Hgen Hsize).
  destruct (@conv2d_filter_x gen_frames b h w c Hgen) as (gen_dx & -> & Sgen_dx & Egen_dx).
  destruct (@conv2d_filter_y gen_frames b h w c Hgen) as (gen_dy & -> & Sgen_dy & Egen_dy).
  destruct (@conv2d_filter_x gt_frames b h w c Hgt) as (gt_dx & -> & Sgt_dx & Egt_dx).
  destruct (@conv2d_filter_y gt_frames b h w c Hgt) as (gt_dy & -> & Sgt_dy & Egt_dy).
  cbn [bind].
  rewrite (@zip4_same_shape Rplus (map4 Rabs gen_dx) (map4 Rabs gen_dy) b h w c)
    by assumption.
  cbn [bind].
  rewrite (@zip4_same_shape Rplus (map4 Rabs gt_dx) (map4 Rabs gt_dy) b h w c)
    by assumption.
  cbn [bind].
  rewrite (@zip4_same_shape Rminus _ _ b h w c) by reflexivity.
  cbn [bind]. f_equal.
  unfold reduce_mean, sharp_diff_formula, batch_mean. simpl. f_equal.
  apply sum_upto_ext. intros n Hn.
  unfold log10r. do 3 f_equal.
  unfold Rdiv. rewrite !Rmult_1_l, Rinv_mult, Rinv_inv. do 2 f_equal.
  apply sum_box_ext. intros i j k Hi Hj Hk.
  repeat match goal with
         | |- context [bidx ?d ?x] => rewrite (@bidx_lt d x) by assumption
         end.
  rewrite Egen_dx, Egen_dy, Egt_dx, Egt_dy by assumption.
  reflexivity.
Qed.


(** X21.  [sharp_diff_error] does not depend on which of the two tensors
    is called generated and which ground truth, when they have one shape. *)
Theorem sharp_diff_error_symmetric (x y : tensor4) (b h w c : nat) :
  shape4 x = (b, h, w, c) ->
  shape4 y = (b, h, w, c) ->
  (Z.of_nat (h * w * c) < 2 ^ 31)%Z ->
  sharp_diff_error x y c = sharp_diff_error y x c.
Proof.
  intros Hx Hy Hsize.
  rewrite (@sharp_diff_error_value x y b h w c Hx Hy Hsize),
    (@sharp_diff_error_value y x b h w c Hy Hx Hsize).
  f_equal. unfold sharp_diff_formula, batch_mean. f_equal.
  apply sum_upto_ext. intros n _. do 3 f_equal.
  apply sum_box_ext. intros i j k _ _ _. apply Rabs_minus_sym.
Qed.

(** X22.  The gradients at the border: the horizontal difference is
    [x(j + 1) - x(j)] inside the frame and [- x(j)] in the last column; the
    vertical difference is [x(i) - x(i + 1)] inside and [x(i)] in the last
    row, the padding being zero.  So the last row and column contribute the
    brightness itself to the sharpness sum. *)
Theorem gradients_at_the_border (t : tensor4) (b h w c : nat) :
  shape4 t = (b, h, w, c) ->
  exists dx dy,
    conv2d_same t (filter_x c) = Ok dx /\
    conv2d_same t (filter_y c) = Ok dy /\
    forall n i j k, (i < h)%nat -> (j < w)%nat -> (k < c)%nat ->
      at4 dx n i j k
      = (if (j + 1 <? w)%nat then at4 t n i (j + 1) k - at4 t n i j k
         else - at4 t n i j k) /\
      at4 dy n i j k
      = (if (i + 1 <? h)%nat then at4 t n i j k - at4 t n (i + 1) j k
         else at4 t n i j k).
Proof.
  intros Hs.
  destruct (@conv2d_filter_x t b h w c Hs) as (dx & Hdx & _ & Edx).
  destruct (@conv2d_filter_y t b h w c Hs) as (dy & Hdy & _ & Edy).
  exists dx, dy. split; [exact Hdx|]. split; [exact Hdy|].
  intros n i j k Hi Hj Hk.
  rewrite Edx, Edy by exact Hk. unfold grad_x, grad_y, entry.
  replace (i <? h)%nat with true by (symmetry; now apply Nat.ltb_lt).
  replace (j <? w)%nat with true by (symmetry; now apply Nat.ltb_lt).
  simpl. destruct (j + 1 <? w)%nat, (i + 1 <? h)%nat; simpl; split; ring.
Qed.

End SharpnessMore.

Section DiffMask.
Import Metrics.
Local Open Scope R_scope.

(** What [diff_mask] evaluates to on two tensors of shape [b, h, w, 3]. *)
Lemma diff_mask_value (gen_frames gt_frames : tensor4) (min_value max_value : R)
      (b h w : nat) :
  shape4 gen_frames = (b, h, w, 3%nat) ->
  shape4 gt_frames = (b, h, w, 3%nat) ->
  let delta := max_value - min_value in
  exists diff,
    diff_mask gen_frames gt_frames min_value max_value = Ok diff /\
    shape4 diff = (b, h, w, 1%nat) /\
    forall n i j, (n < b)%nat -> (i < h)%nat -> (j < w)%nat ->
      at4 diff n i j 0
      = Rabs (gray (map4 (fun x => (x - min_value) / delta) gen_frames) n i j
              - gray (map4 (fun x => (x - min_value) / delta) gt_frames) n i j).
Proof.
  intros Hgen Hgt delta. unfold diff_mask, rgb_to_grayscale. fold delta.
  simpl. rewrite Hgen, Hgt. simpl. 
  rewrite (@zip4_same_shape Rminus _ _ b h w 1) by reflexivity.
  cbn [bind]. eexists. split; [reflexivity|]. split; [reflexivity|].
  intros n i j Hn Hi Hj. simpl.
  rewrite !bidx_lt by assumption.
  unfold gray, bidx. simpl. f_equal. ring.
Qed.

(** X23.  On frames of shape [b, h, w, 3] and with [max_value <>
    min_value], [diff_mask] has shape [b, h, w, 1] and holds, at every
    pixel, the absolute difference of the grey levels of the two frames
    (weights 0.2989, 0.5870, 0.1140) divided by [|max_value - min_value|];
    [min_value] itself cancels. *)
Theorem diff_mask_is_gray_difference
        (gen_frames gt_frames : tensor4) (min_value max_value : R) (b h w : nat) :
  shape4 gen_frames = (b, h, w, 3%nat) ->
  shape4 gt_frames = (b, h, w, 3%nat) ->
  max_value <> min_value ->
  exists diff,
    diff_mask gen_frames gt_frames min_value max_value = Ok diff /\
    shape4 diff = (b, h, w, 1%nat) /\
    forall n i j, (n < b)%nat -> (i < h)%nat -> (j < w)%nat ->
      at4 diff n i j 0
      = Rabs (gray gen_frames n i j - gray gt_frames n i j)
        / Rabs (max_value - min_value).
Proof.
  intros Hgen Hgt Hne.
  destruct (@diff_mask_value gen_frames gt_frames min_value max_value b h w Hgen Hgt)
    as (diff & Hd & Hs & Hv).
  exists diff. split; [exact Hd|]. split; [exact Hs|].
  intros n i j Hn Hi Hj. rewrite (Hv n i j Hn Hi Hj).
  unfold Rdiv at 3. rewrite <- Rabs_inv, <- Rabs_mult. f_equal.
  unfold gray. simpl. field. lra.
Qed.

Lemma unit_interval (lo hi x : R) :
  lo < hi -> lo <= x <= hi -> 0 <= (x - lo) / (hi - lo) <= 1.
Proof.
  intros Hlt Hx. split.
  - apply Rmult_le_pos; [lra|]. left. apply Rinv_0_lt_compat. lra.
  - apply Rmult_le_reg_r with (r := hi - lo); [lra|].
    unfold Rdiv. rewrite Rmult_assoc, Rinv_l by lra. lra.
Qed.

(** X24.  On frames of shape [b, h, w, 3] with entries between
    [min_value] and [max_value], [min_value < max_value], every entry of
    [diff_mask] lies between 0 and 0.9999, the sum of the grey weights. *)
Theorem diff_mask_range
        (gen_frames gt_frames : tensor4) (min_value max_value : R) (b h w : nat) :
  shape4 gen_frames = (b, h, w, 3%nat) ->
  shape4 gt_frames = (b, h, w, 3%nat) ->
  min_value < max_value ->
  entries_in b h w 3 (fun x => min_value <= x <= max_value) gen_frames ->
  entries_in b h w 3 (fun x => min_value <= x <= max_value) gt_frames ->
  exists diff,
    diff_mask gen_frames gt_frames min_value max_value = Ok diff /\
    forall n i j, (n < b)%nat -> (i < h)%nat -> (j < w)%nat ->
      0 <= at4 diff n i j 0 <= 9999 / 10000.
Proof.
  intros Hgen Hgt Hlt Egen Egt.
  destruct (@diff_mask_value gen_frames gt_frames min_value max_value b h w Hgen Hgt)
    as (diff & Hd & _ & Hv).
  exists diff. split; [exact Hd|].
  intros n i j Hn Hi Hj. rewrite (Hv n i j Hn Hi Hj).
  split; [apply Rabs_pos|].
  unfold gray. simpl.
  pose proof (unit_interval Hlt (Egen n i j 0%nat Hn Hi Hj ltac:(lia))).
  pose proof (unit_interval Hlt (Egen n i j 1%nat Hn Hi Hj ltac:(lia))).
  pose proof (unit_interval Hlt (Egen n i j 2%nat Hn Hi Hj ltac:(lia))).
  pose proof (unit_interval Hlt (Egt n i j 0%nat Hn Hi Hj ltac:(lia))).
  pose proof (unit_interval Hlt (Egt n i j 1%nat Hn Hi Hj ltac:(lia))).
  pose proof (unit_interval Hlt (Egt n i j 2%nat Hn Hi Hj ltac:(lia))).
  apply Rabs_le. lra.
Qed.

(** X25.  [log10] is the logarithm to base 10, entry by entry: an entry
    [10 ^ k] becomes [k], and the shape is kept. *)
Theorem log10_of_power_of_ten (t : tensor1) (i k : nat) :
  at1 t i = 10 ^ k ->
  at1 (log10 t) i = INR k /\ shape1 (log10 t) = shape1 t.
Proof.
  intros H. split; [|reflexivity].
  unfold log10, map1. simpl. rewrite H, ln_pow by lra.
  field. pose proof ln_10_pos. lra.
Qed.

End DiffMask.

Section SaveMore.
Variables saver session : Type.
Import Ckpt.

(** X26.  [save] prints its message exactly when it ends without an
    exception; when the directory is missing and [os.makedirs] raises,
    [saver.save] is not called at all and the exception is what [save]
    ends with. *)
Theorem save_reports_only_success
        (s : saver) (sess : session) (logdir : string) (step : Z) (e : env) :
  let trace := fst (save s sess logdir step e) in
  let outcome := snd (save s sess logdir step e) in
  (In (print saver session "The checkpoint has been created.") trace
   <-> outcome = Ok tt) /\
  (exists_ e logdir = false -> makedirs_raises e logdir = true ->
   outcome = Raise OSError /\ filter (@is_saver_save saver session) trace = []).
Proof.
  intros trace outcome. subst trace outcome.
  pose proof (save_trace s sess logdir step e) as Ht. cbv zeta in Ht.
  rewrite Ht. clear Ht.
  destruct (exists_ e logdir), (makedirs_raises e logdir),
    (save_raises e (os_path_join logdir "model.ckpt") step); simpl;
    (split; [split; [intros H; repeat (destruct H as [H|H]; try discriminate);
                     try contradiction; try reflexivity
                    | intros H; try discriminate; auto 6]
            | intros H1 H2; try discriminate; split; reflexivity]).
Qed.

End SaveMore.

Lemma psnr_error_symmetric_witness :
  Metrics.psnr_error Demo.gen_frames Demo.gt_frames
  = Metrics.psnr_error Demo.gt_frames Demo.gen_frames.
Proof.
  apply (@psnr_error_symmetric Demo.gen_frames Demo.gt_frames 2 2 2 3);
    reflexivity.
Defined.

Lemma demo_gen_frames_range :
  Metrics.entries_in 2 2 2 3 (fun x => -1 <= x <= 1)%R Demo.gen_frames.
Proof.
  intros n i j k _ Hi Hj _. simpl.
  destruct i as [|[|i]]; [| |lia]; (destruct j as [|[|j]]; [| |lia]); simpl; lra.
Qed.

Lemma demo_gt_frames_range :
  Metrics.entries_in 2 2 2 3 (fun x => -1 <= x <= 1)%R Demo.gt_frames.
Proof.
  intros n i j k _ _ _ _. simpl. destruct (n =? k)%nat; lra.
Qed.

Lemma demo_frames_differ (n : nat) :
  (n < 2)%nat -> (0 < Metrics.mse 2 2 3 Demo.gen_frames Demo.gt_frames n)%R.
Proof.
  intros Hn. unfold Metrics.mse, Metrics.mean_box, Metrics.sum_box.
  destruct n as [|[|n]]; [| |lia];
    simpl; unfold Rsqr, Metrics.rescale01; lra.
Qed.

Lemma psnr_error_nonnegative_witness :
  exists p, Metrics.psnr_error Demo.gen_frames Demo.gt_frames = Ok p /\ (0 <= p)%R.
Proof.
  apply (@psnr_error_nonnegative Demo.gen_frames Demo.gt_frames 2 2 2 3).
  - reflexivity.
  - reflexivity.
  - reflexivity.
  - lia.
  - exact demo_gen_frames_range.
  - exact demo_gt_frames_range.
  - exact demo_frames_differ.
Defined.

Lemma psnr_error_of_pixel_values_witness :
  Metrics.psnr_error (Metrics.normalized Demo.gen_pixels)
                     (Metrics.normalized Demo.gt_pixels)
  = Ok (Metrics.psnr255_formula 2 2 2 3 Demo.gen_pixels Demo.gt_pixels).
Proof.
  apply (@psnr_error_of_pixel_values Demo.gen_pixels Demo.gt_pixels 2 2 2 3);
    reflexivity.
Defined.



Lemma sharp_diff_error_symmetric_witness :
  Metrics.sharp_diff_error Demo.gen_frames Demo.gt_frames 3
  = Metrics.sharp_diff_error Demo.gt_frames Demo.gen_frames 3.
Proof.
  apply (@sharp_diff_error_symmetric Demo.gen_frames Demo.gt_frames 2 2 2 3);
    reflexivity.
Defined.

Lemma gradients_at_the_border_witness :
  exists dx dy,
    Metrics.conv2d_same Demo.gen_frames (Metrics.filter_x 3) = Ok dx /\
    Metrics.conv2d_same Demo.gen_frames (Metrics.filter_y 3) = Ok dy /\
    forall n i j k, (i < 2)%nat -> (j < 2)%nat -> (k < 3)%nat ->
      Metrics.at4 dx n i j k
      = (if (j + 1 <? 2)%nat
         then Metrics.at4 Demo.gen_frames n i (j + 1) k
              - Metrics.at4 Demo.gen_frames n i j k
         else - Metrics.at4 Demo.gen_frames n i j k)%R /\
      Metrics.at4 dy n i j k
      = (if (i + 1 <? 2)%nat
         then Metrics.at4 Demo.gen_frames n i j k
              - Metrics.at4 Demo.gen_frames n (i + 1) j k
         else Metrics.at4 Demo.gen_frames n i j k)%R.
Proof.
  apply (@gradients_at_the_border Demo.gen_frames 2 2 2 3). reflexivity.
Defined.

Lemma diff_mask_is_gray_difference_witness :
  exists diff,
    Metrics.diff_mask Demo.gen_frames Demo.gt_frames (-1) 1 = Ok diff /\
    Metrics.shape4 diff = (2, 2, 2, 1)%nat /\
    forall n i j, (n < 2)%nat -> (i < 2)%nat -> (j < 2)%nat ->
      Metrics.at4 diff n i j 0
      = (Rabs (Metrics.gray Demo.gen_frames n i j - Metrics.gray Demo.gt_frames n i j)
         / Rabs (1 - -1))%R.
Proof.
  apply (@diff_mask_is_gray_difference Demo.gen_frames Demo.gt_frames (-1) 1 2 2 2).
  - reflexivity.
  - reflexivity.
  - lra.
Defined.

Lemma diff_mask_range_witness :
  exists diff,
    Metrics.diff_mask Demo.gen_frames Demo.gt_frames (-1) 1 = Ok diff /\
    forall n i j, (n < 2)%nat -> (i < 2)%nat -> (j < 2)%nat ->
      (0 <= Metrics.at4 diff n i j 0 <= 9999 / 10000)%R.
Proof.
  apply (@diff_mask_range Demo.gen_frames Demo.gt_frames (-1) 1 2 2 2).
  - reflexivity.
  - reflexivity.
  - lra.
  - exact demo_gen_frames_range.
  - exact demo_gt_frames_range.
Defined.

Lemma log10_of_power_of_ten_witness :
  Metrics.at1 (Metrics.log10 Demo.powers_of_ten) 3 = INR 3 /\
  Metrics.shape1 (Metrics.log10 Demo.powers_of_ten) = Metrics.shape1 Demo.powers_of_ten.
Proof.
  apply (@log10_of_power_of_ten Demo.powers_of_ten 3 3). reflexivity.
Defined.

Section GeneratorReach.
Context {E : Extern}.

(** X27.  The generator never reads the last frame of a video: every clip
    it yields starts at some [start >= 0] with
    [start + clip_length < length], so the frames it joins end before index
    [length - 1]. *)
Theorem generator_stops_before_last_frame
        (ds : Loader.dataset) (v_id v_id' : Z)
        (outcomes : list (result (Z * imagef))) (clip : imagef) :
  Loader.video_clip_generator ds v_id = Ok outcomes ->
  In (Ok (v_id', clip)) outcomes ->
  exists (info : Loader.video_info) (start : Z),
    nth_error (Loader.video_info_list ds) (Z.to_nat v_id') = Some info /\
    (0 <= start)%Z /\
    (start + Loader.clip_length ds < Loader.v_length info)%Z /\
    Loader.video_clip_at ds info start = Ok clip.
Proof.
  intros Hgen Hin. unfold Loader.video_clip_generator in Hgen.
  apply bind_ok_inv in Hgen as (v & Hv & Hgen).
  apply bind_ok_inv in Hgen as (info & Hinfo & Hgen).
  apply bind_ok_inv in Hgen as (starts & Hstarts & Hgen).
  injection Hgen as <-.
  apply in_map_iff in Hin as (start & Hclip & Hstart).
  apply bind_ok_inv in Hclip as (clip' & Hat & Hclip).
  injection Hclip as <- <-.
  apply randint_ok in Hstarts as [_ ->]. apply in_range in Hstart.
  apply mod_ok in Hv as (Hvb & _ & Hn).
  apply list_getitem_ok_nonneg in Hinfo; [|apply Hvb; lia].
  exists info, start. split; [exact (proj1 Hinfo)|].
  split; [lia|]. split; [lia | exact Hat].
Qed.

End GeneratorReach.

Lemma generator_stops_before_last_frame_witness :
  exists (info : Loader.video_info) (start : Z),
    nth_error (Loader.video_info_list (fst (Loader.__call__ Demo.loader 4 4 1)))
              (Z.to_nat 0) = Some info /\
    (0 <= start)%Z /\
    (start + Loader.clip_length (fst (Loader.__call__ Demo.loader 4 4 1))
     < Loader.v_length info)%Z /\
    Loader.video_clip_at (E := Demo.world)
      (fst (Loader.__call__ Demo.loader 4 4 1)) info start
    = Ok (channel_concat 2 2
            [Demo.loaded 0 255; Demo.loaded 10 245; Demo.loaded 20 235;
             Demo.loaded 30 225; Demo.loaded 40 215]).
Proof.
  apply (@generator_stops_before_last_frame Demo.world
           (fst (Loader.__call__ Demo.loader 4 4 1)) Loader.v_id_init 0
           [Ok (0%Z, channel_concat 2 2
                       [Demo.loaded 0 255; Demo.loaded 10 245; Demo.loaded 20 235;
                        Demo.loaded 30 225; Demo.loaded 40 215])]).
  - reflexivity.
  - left. reflexivity.
Defined.
